(** * vector3d.h: lazily evaluated 3D vector arithmetic

    A verification development for the expression-template header
    [vector3d.h].  The header is a family of C++ class templates over a
    scalar type [S]:

    - [Vector3D_Expr<S,E>], the CRTP interface with the accessors [x()],
      [y()], [z()] and the derived [dot], [cross], [squaredNorm], [norm];
    - [Vector3D<S>], the concrete vector that owns three scalars and is the
      only mutable class;
    - one node class per operation ([Vector3D_SumExpr], [Vector3D_DiffExpr],
      [Vector3D_NegateExpr], [Vector3D_MultExpr], [Vector3D_DivExpr],
      [Vector3D_CrossExpr]) and the operators that build them;
    - the stream operators [<<] and [>>].

    Embedding.  The scalar type is a type class [Scalar] carrying exactly
    the operations the header applies to [S].  Concrete vectors are objects
    in a store ([heap]) and are named by their location; a node holds its
    operands the way the C++ node holds its references.  The [const]
    accessors are functions of the store that also report which stored
    components they read ([Eval]); the mutating members are state
    transformers on the store ([Mut]).  The CRTP interface is a type class
    whose instances are the node types. *)

From Stdlib Require Import ZArith QArith List String Ascii Bool.
From Stdlib Require Import Ring Ring_theory DecimalString DecimalZ DecimalPos.
From Stdlib Require Reals RMicromega OrderedRing.
From Stdlib Require Import Field Lra Lia Permutation RealField.
Import ListNotations.

Close Scope Q_scope.
Close Scope R_scope.

Set Implicit Arguments.

(** ** The scalar type [S] *)

(** The operations the header uses on [S]: conversion of the literal [0]
    (default constructor), binary [+ - * /], unary [-], [std::sqrt] and
    [==].  [Sone] is not used by the header; it is the unit the ring laws
    are stated with. *)
Class Scalar (S : Type) : Type := {
  Szero : S;
  Sone : S;
  Sadd : S -> S -> S;
  Ssub : S -> S -> S;
  Smul : S -> S -> S;
  Sdiv : S -> S -> S;
  Sneg : S -> S;
  Ssqrt : S -> S;
  Seqb : S -> S -> bool
}.

Declare Scope scalar_scope.
Delimit Scope scalar_scope with S.
Infix "+" := Sadd : scalar_scope.
Infix "-" := Ssub : scalar_scope.
Infix "*" := Smul : scalar_scope.
Infix "/" := Sdiv : scalar_scope.
Notation "- a" := (Sneg a) : scalar_scope.

(** The value of an integer literal converted to [S], as in
    [Vector3D<S>(1, 2, 3)]: the literal [n] denotes [n] times the unit. *)
Fixpoint Slit_pos {S} `{Scalar S} (p : positive) : S :=
  match p with
  | xH => Sone
  | xO q => ((Sone + Sone) * Slit_pos q)%S
  | xI q => (Sone + (Sone + Sone) * Slit_pos q)%S
  end.

Definition Slit {S} `{Scalar S} (n : Z) : S :=
  match n with
  | Z0 => Szero
  | Zpos p => Slit_pos p
  | Zneg p => (- Slit_pos p)%S
  end.

(** The second scalar type [S2] of [Vector3D_MultExpr<S,E,S2>] and
    [Vector3D_DivExpr<S,E,S2>]: [m_vec.x() * m_s] and [m_vec.x() / m_s]
    take an [S] and an [S2] and the result is returned as an [S]. *)
Class ScalarOperand (S S2 : Type) : Type := {
  mul_scalar : S -> S2 -> S;
  div_scalar : S -> S2 -> S
}.

#[export] Instance ScalarOperand_same {S} `{Scalar S} : ScalarOperand S S :=
  {| mul_scalar := Smul; div_scalar := Sdiv |}.

(** ** Objects, the store and the two effect types *)

(** The three axes; [access] names one stored component. *)
Inductive axis : Type := AxisX | AxisY | AxisZ.

Definition axis_eq_dec (a b : axis) : {a = b} + {a <> b}.
Proof. decide equality. Defined.

Definition loc : Type := nat.
Definition access : Type := (loc * axis)%type.

Definition access_eq_dec (a b : access) : {a = b} + {a <> b}.
Proof. decide equality; [apply axis_eq_dec | apply Nat.eq_dec]. Defined.

Section Vector3D.

Context {S : Type} `{Scalar S}.
Local Open Scope scalar_scope.

(** [class Vector3D]: the private members [m_x], [m_y], [m_z].  The record
    constructor is the constructor [Vector3D(S x, S y, S z)]. *)
Record Vector3D : Type := Vector3D_xyz { m_x : S; m_y : S; m_z : S }.

(** [Vector3D()]: all elements zero. *)
Definition Vector3D_default : Vector3D := Vector3D_xyz Szero Szero Szero.

(** [Vector3D(S value)]: all elements initialised with [value]. *)
Definition Vector3D_value (value : S) : Vector3D :=
  Vector3D_xyz value value value.

(** The store of [Vector3D] objects. *)
Definition heap : Type := loc -> Vector3D.

Definition heap_set (h : heap) (l : loc) (v : Vector3D) : heap :=
  fun l' => if Nat.eqb l' l then v else h l'.

(** A reference [S&] to one member of an object. *)
Definition load (h : heap) (r : access) : S :=
  match snd r with
  | AxisX => m_x (h (fst r))
  | AxisY => m_y (h (fst r))
  | AxisZ => m_z (h (fst r))
  end.

Definition store (h : heap) (r : access) (s : S) : heap :=
  let v := h (fst r) in
  heap_set h (fst r)
    match snd r with
    | AxisX => Vector3D_xyz s (m_y v) (m_z v)
    | AxisY => Vector3D_xyz (m_x v) s (m_z v)
    | AxisZ => Vector3D_xyz (m_x v) (m_y v) s
    end.

(** [const] member functions: they read the store, cannot change it, and
    report the stored components they read, in the order of reading. *)
Definition Eval (A : Type) : Type := heap -> A * list access.

Definition eret {A} (a : A) : Eval A := fun _ => (a, []).

Definition ebind {A B} (m : Eval A) (k : A -> Eval B) : Eval B :=
  fun h => let (a, t1) := m h in let (b, t2) := k a h in (b, t1 ++ t2).

(** Reading a member of the object at [l]. *)
Definition read (l : loc) (c : axis) : Eval S :=
  fun h => (load h (l, c), [(l, c)]).

Definition value {A} (m : Eval A) (h : heap) : A := fst (m h).
Definition reads {A} (m : Eval A) (h : heap) : list access := snd (m h).

(** Non-[const] member functions: state transformers on the store. *)
Definition Mut (A : Type) : Type := heap -> A * heap.

Definition mret {A} (a : A) : Mut A := fun h => (a, h).

Definition mbind {A B} (m : Mut A) (k : A -> Mut B) : Mut B :=
  fun h => let (a, h') := m h in k a h'.

Definition lift {A} (m : Eval A) : Mut A := fun h => (value m h, h).

Definition get (r : access) : Mut S := fun h => (load h r, h).
Definition put (r : access) (s : S) : Mut unit := fun h => (tt, store h r s).

End Vector3D.

Arguments Vector3D S : clear implicits.
Arguments heap S : clear implicits.
Arguments Eval S A : clear implicits.
Arguments Mut S A : clear implicits.

Declare Scope eval_scope.
Delimit Scope eval_scope with eval.
Notation "a <- m ;; k" := (ebind m (fun a => k))
  (at level 61, m at next level, right associativity) : eval_scope.

Declare Scope mut_scope.
Delimit Scope mut_scope with mut.
Notation "a <- m ;; k" := (mbind m (fun a => k))
  (at level 61, m at next level, right associativity) : mut_scope.
Notation "m ;; k" := (mbind m (fun _ => k))
  (at level 61, right associativity) : mut_scope.

(** ** The CRTP interface and the node classes *)

(** A named [Vector3D] object used as an operand: the C++ reference to it. *)
Record Vector3D_ref : Type := ref { addr : loc }.

(** Node classes.  Every node stores its operands ([const] references in
    C++, immutable temporaries or references to stored vectors); the
    scalar of a product or quotient is stored by value.  The operand
    members are declared [const Vector3D_Expr<S, E>&], except [m_vec] of
    [Vector3D_NegateExpr], which is declared [const E&] and initialised
    from a [const Vector3D_Expr<S, E>&].  A reference to the interface
    does not convert to a reference to [E]: for [E = Vector3D<S>] the
    member is bound to a temporary copy that is destroyed when the
    constructor returns, and for every other [E] the initialisation is
    ill-formed.  The member of a negation node therefore never refers to
    a live operand, and [-m_vec.x()] has no defined value: the record
    below only says which expression the node was built from, and
    [Vector3D_NegateExpr] is given no instance of the interface. *)
Record Vector3D_SumExpr (E1 E2 : Type) : Type :=
  SumExpr { sum_m_l : E1; sum_m_r : E2 }.
Record Vector3D_DiffExpr (E1 E2 : Type) : Type :=
  DiffExpr { diff_m_l : E1; diff_m_r : E2 }.
Record Vector3D_NegateExpr (E : Type) : Type :=
  NegateExpr { neg_m_vec : E }.
Record Vector3D_MultExpr (E S2 : Type) : Type :=
  MultExpr { mult_m_vec : E; mult_m_s : S2 }.
Record Vector3D_DivExpr (E S2 : Type) : Type :=
  DivExpr { div_m_vec : E; div_m_s : S2 }.
Record Vector3D_CrossExpr (E1 E2 : Type) : Type :=
  CrossExpr { cross_a : E1; cross_b : E2 }.

Section Expressions.

Context {S : Type} `{Scalar S}.
Local Open Scope scalar_scope.
Local Open Scope eval_scope.

(** [Vector3D_Expr<S,E>]: [x()], [y()], [z()] forward to the implementing
    class [E] ([static_cast<const E&>( *this ).x()]); instance resolution
    plays the part of the static cast. *)
Class Vector3D_Expr (E : Type) : Type := {
  x : E -> Eval S S;
  y : E -> Eval S S;
  z : E -> Eval S S
}.

(** [Vector3D::x() const] and its siblings return the stored members. *)
#[export] Instance Vector3D_is_Expr : Vector3D_Expr Vector3D_ref := {|
  x := fun this => read (addr this) AxisX;
  y := fun this => read (addr this) AxisY;
  z := fun this => read (addr this) AxisZ
|}.

(** [Vector3D_SumExpr::x()]: [m_l.x() + m_r.x()]. *)
#[export] Instance SumExpr_is_Expr {E1 E2}
  `{Vector3D_Expr E1} `{Vector3D_Expr E2} :
  Vector3D_Expr (Vector3D_SumExpr E1 E2) := {|
  x := fun this =>
    l <- x (sum_m_l this) ;; r <- x (sum_m_r this) ;; eret (l + r);
  y := fun this =>
    l <- y (sum_m_l this) ;; r <- y (sum_m_r this) ;; eret (l + r);
  z := fun this =>
    l <- z (sum_m_l this) ;; r <- z (sum_m_r this) ;; eret (l + r)
|}.

(** [Vector3D_DiffExpr::x()]: [m_l.x() - m_r.x()]. *)
#[export] Instance DiffExpr_is_Expr {E1 E2}
  `{Vector3D_Expr E1} `{Vector3D_Expr E2} :
  Vector3D_Expr (Vector3D_DiffExpr E1 E2) := {|
  x := fun this =>
    l <- x (diff_m_l this) ;; r <- x (diff_m_r this) ;; eret (l - r);
  y := fun this =>
    l <- y (diff_m_l this) ;; r <- y (diff_m_r this) ;; eret (l - r);
  z := fun this =>
    l <- z (diff_m_l this) ;; r <- z (diff_m_r this) ;; eret (l - r)
|}.

(** [Vector3D_MultExpr::x()]: [m_vec.x() * m_s]. *)
#[export] Instance MultExpr_is_Expr {E S2}
  `{Vector3D_Expr E} `{ScalarOperand S S2} :
  Vector3D_Expr (Vector3D_MultExpr E S2) := {|
  x := fun this =>
    v <- x (mult_m_vec this) ;; eret (mul_scalar v (mult_m_s this));
  y := fun this =>
    v <- y (mult_m_vec this) ;; eret (mul_scalar v (mult_m_s this));
  z := fun this =>
    v <- z (mult_m_vec this) ;; eret (mul_scalar v (mult_m_s this))
|}.

(** [Vector3D_DivExpr::x()]: [m_vec.x() / m_s]. *)
#[export] Instance DivExpr_is_Expr {E S2}
  `{Vector3D_Expr E} `{ScalarOperand S S2} :
  Vector3D_Expr (Vector3D_DivExpr E S2) := {|
  x := fun this =>
    v <- x (div_m_vec this) ;; eret (div_scalar v (div_m_s this));
  y := fun this =>
    v <- y (div_m_vec this) ;; eret (div_scalar v (div_m_s this));
  z := fun this =>
    v <- z (div_m_vec this) ;; eret (div_scalar v (div_m_s this))
|}.

(** [Vector3D_CrossExpr]:
    [x() = a.y() * b.z() - b.y() * a.z()],
    [y() = a.z() * b.x() - b.z() * a.x()],
    [z() = a.x() * b.y() - b.x() * a.y()]. *)
#[export] Instance CrossExpr_is_Expr {E1 E2}
  `{Vector3D_Expr E1} `{Vector3D_Expr E2} :
  Vector3D_Expr (Vector3D_CrossExpr E1 E2) := {|
  x := fun this =>
    ay <- y (cross_a this) ;; bz <- z (cross_b this) ;;
    by_ <- y (cross_b this) ;; az <- z (cross_a this) ;;
    eret (ay * bz - by_ * az);
  y := fun this =>
    az <- z (cross_a this) ;; bx <- x (cross_b this) ;;
    bz <- z (cross_b this) ;; ax <- x (cross_a this) ;;
    eret (az * bx - bz * ax);
  z := fun this =>
    ax <- x (cross_a this) ;; by_ <- y (cross_b this) ;;
    bx <- x (cross_b this) ;; ay <- y (cross_a this) ;;
    eret (ax * by_ - bx * ay)
|}.

(** *** Members of [Vector3D_Expr] derived from the accessors *)

Section Derived.

Context {E : Type} `{Vector3D_Expr E}.

(** [dot]: [x() * vector.x() + y() * vector.y() + z() * vector.z()]. *)
Definition dot {E2} `{Vector3D_Expr E2} (this : E) (vector : E2) : Eval S S :=
  x1 <- x this ;; x2 <- x vector ;;
  y1 <- y this ;; y2 <- y vector ;;
  z1 <- z this ;; z2 <- z vector ;;
  eret (x1 * x2 + y1 * y2 + z1 * z2).

(** [cross]: [Vector3D_CrossExpr<S, E, E2>( *this, other )]. *)
Definition cross {E2} (this : E) (other : E2) : Vector3D_CrossExpr E E2 :=
  CrossExpr this other.

(** [squaredNorm]: [dot( *this )]. *)
Definition squaredNorm (this : E) : Eval S S := dot this this.

(** [norm]: [std::sqrt(squaredNorm())]. *)
Definition norm (this : E) : Eval S S :=
  n <- squaredNorm this ;; eret (Ssqrt n).

(** [Vector3D(const Vector3D_Expr<S2,E>& vector)]: the member
    initialisers [m_x(vector.x()), m_y(vector.y()), m_z(vector.z())], run
    in the declaration order of the members. *)
Definition Vector3D_of_expr (vector : E) : Eval S (Vector3D S) :=
  vx <- x vector ;; vy <- y vector ;; vz <- z vector ;;
  eret (Vector3D_xyz vx vy vz).

End Derived.

(** *** The operators that build nodes *)

Definition operator_plus {E1 E2} (augend : E1) (addend : E2) :
  Vector3D_SumExpr E1 E2 := SumExpr augend addend.

Definition operator_minus {E1 E2} (minuend : E1) (subtrahend : E2) :
  Vector3D_DiffExpr E1 E2 := DiffExpr minuend subtrahend.

(** Both overloads of [operator*]: [(vector, scalar)] and
    [(scalar, vector)] build the same node. *)
Definition operator_times {E S2} (vector : E) (scalar : S2) :
  Vector3D_MultExpr E S2 := MultExpr vector scalar.

Definition operator_times_left {E S2} (scalar : S2) (vector : E) :
  Vector3D_MultExpr E S2 := MultExpr vector scalar.

Definition operator_divide {E S2} (vector : E) (scalar : S2) :
  Vector3D_DivExpr E S2 := DivExpr vector scalar.

End Expressions.

(** ** The members of [Vector3D] *)

Section Members.

Context {S : Type} `{Scalar S}.
Local Open Scope scalar_scope.

(** The non-[const] accessors [S& x()], [S& y()], [S& z()]: writable
    references to the members of the object. *)
Definition x_ref (this : loc) : access := (this, AxisX).
Definition y_ref (this : loc) : access := (this, AxisY).
Definition z_ref (this : loc) : access := (this, AxisZ).

(** [setConstant]: [m_x = m_y = m_z = scalar; return *this]. *)
Definition setConstant (this : loc) (scalar : S) : Mut S loc :=
  (put (this, AxisZ) scalar ;;
   vz <- get (this, AxisZ) ;; put (this, AxisY) vz ;;
   vy <- get (this, AxisY) ;; put (this, AxisX) vy ;;
   mret this)%mut.

(** The built-in compound assignment [r op= rhs] on a scalar member [r]:
    the right operand is evaluated in the store as it is at that point,
    then the member is read, combined with it and written back. *)
Definition compound_assign (op : S -> S -> S) (r : access)
  (rhs : Eval S S) : Mut S unit :=
  (v <- lift rhs ;; m <- get r ;; put r (op m v))%mut.

(** [operator+=]: [m_x += vector.x(); m_y += vector.y();
    m_z += vector.z(); return *this]. *)
Definition operator_plus_assign {E} `{Vector3D_Expr S E}
  (this : loc) (vector : E) : Mut S loc :=
  (compound_assign Sadd (this, AxisX) (x vector) ;;
   compound_assign Sadd (this, AxisY) (y vector) ;;
   compound_assign Sadd (this, AxisZ) (z vector) ;;
   mret this)%mut.

(** [operator-=]: [m_x -= vector.x(); m_y -= vector.y();
    m_z -= vector.z(); return *this]. *)
Definition operator_minus_assign {E} `{Vector3D_Expr S E}
  (this : loc) (vector : E) : Mut S loc :=
  (compound_assign Ssub (this, AxisX) (x vector) ;;
   compound_assign Ssub (this, AxisY) (y vector) ;;
   compound_assign Ssub (this, AxisZ) (z vector) ;;
   mret this)%mut.

(** [operator/=]: [m_x /= scalar; m_y /= scalar; m_z /= scalar;
    return *this]. *)
Definition operator_divide_assign (this : loc) (scalar : S) : Mut S loc :=
  (compound_assign Sdiv (this, AxisX) (eret scalar) ;;
   compound_assign Sdiv (this, AxisY) (eret scalar) ;;
   compound_assign Sdiv (this, AxisZ) (eret scalar) ;;
   mret this)%mut.

(** [operator*=]: [m_x *= scalar; m_y *= scalar; m_z *= scalar;
    return *this]. *)
Definition operator_times_assign (this : loc) (scalar : S) : Mut S loc :=
  (compound_assign Smul (this, AxisX) (eret scalar) ;;
   compound_assign Smul (this, AxisY) (eret scalar) ;;
   compound_assign Smul (this, AxisZ) (eret scalar) ;;
   mret this)%mut.

(** [normalized]: [const S n = this->norm();
    return Vector3D<S>(m_x / n, m_y / n, m_z / n)].  A [const] member: it
    reads the store and returns a new vector by value. *)
Definition normalized (this : loc) : Eval S (Vector3D S) :=
  (n <- norm (ref this) ;;
   mx <- read this AxisX ;; my <- read this AxisY ;; mz <- read this AxisZ ;;
   eret (Vector3D_xyz (mx / n) (my / n) (mz / n)))%eval.

(** *** [operator==] *)

(** The body of [Vector3D::operator==] is
    [m_x == vector.x && m_y == vector.y && m_z == vector.z]: the right
    operands are written without the call parentheses.  [vector.x] is
    then the name of the (overloaded) member function [x] of [vector], not
    the scalar it would return, and a member-function name may only be
    used as the callee of a call.  An operand is therefore either a scalar
    value or a member-function name. *)
Inductive operand : Type :=
| Scalar_value (s : S)
| Member_function (object : loc) (name : string).

(** [==] on [S] has a result only when both operands are scalar values. *)
Definition scalar_equal (l r : operand) : option bool :=
  match l, r with
  | Scalar_value s, Scalar_value t => Some (Seqb s t)
  | _, _ => None
  end.

(** [&&]: the conjunction has a result when both conjuncts are
    well-formed. *)
Definition logical_and (l r : option bool) : option bool :=
  match l, r with
  | Some p, Some q => Some (p && q)
  | _, _ => None
  end.

(** [Vector3D::operator==], as written. *)
Definition operator_equal (this vector : loc) : Eval S (option bool) :=
  (mx <- read this AxisX ;; my <- read this AxisY ;; mz <- read this AxisZ ;;
   eret (logical_and
           (logical_and
              (scalar_equal (Scalar_value mx) (Member_function vector "x"))
              (scalar_equal (Scalar_value my) (Member_function vector "y")))
           (scalar_equal (Scalar_value mz) (Member_function vector "z"))))%eval.

(** *** Unary [operator-] *)

(** The names visible in a function body, innermost first. *)
Definition scope (E : Type) : Type := list (string * E).

Fixpoint lookup {E} (name : string) (sc : scope E) : option E :=
  match sc with
  | [] => None
  | (n, e) :: rest => if String.eqb n name then Some e else lookup name rest
  end.

(** Unary [operator-].  Its parameter is called [vector], its body is
    [return Vector3D_NegateExpr<S, E>(v);].  The name [v] is looked up in
    the scope of the body: the parameter first, then whatever the
    translation unit declares around the header ([enclosing]).  With no
    such declaration the name is unbound and the operator has no result;
    with one, the node is built from that object and the argument is
    unused. *)
Definition operator_negate {E} (enclosing : scope E) (vector : E) :
  option (Vector3D_NegateExpr E) :=
  match lookup "v" (("vector"%string, vector) :: enclosing) with
  | Some v => Some (NegateExpr v)
  | None => None
  end.

End Members.

(** ** The stream operators *)

(** [std::ostream]: the text written so far.  [std::istream]: the text not
    yet consumed and the failure flag of the stream. *)
Definition ostream : Type := string.

Record istream : Type := Istream { buffer : string; failbit : bool }.

(** The stream operators of the scalar type, which the header calls and
    does not define: [show s] is the text [stream << s] appends, and
    [extract stream old] is [stream >> r] for a reference [r] whose
    referent currently holds [old]; it returns the stream afterwards and
    the value the referent holds afterwards. *)
Class ScalarIO (S : Type) : Type := {
  show : S -> string;
  extract : istream -> S -> istream * S
}.

Section Streams.

Context {S : Type} `{ScalarIO S}.

Definition insert_scalar (stream : ostream) (s : S) : ostream :=
  (stream ++ show s)%string.

Definition insert_char (stream : ostream) (c : ascii) : ostream :=
  (stream ++ String c EmptyString)%string.

(** [operator<<]:
    [stream << vector.x() << ' ' << vector.y() << ' ' << vector.z();
    return stream]. *)
Definition operator_shift_left {E} `{Vector3D_Expr S E}
  (stream : ostream) (vector : E) : Eval S ostream :=
  (vx <- x vector ;; vy <- y vector ;; vz <- z vector ;;
   eret (insert_scalar
           (insert_char
              (insert_scalar
                 (insert_char (insert_scalar stream vx) " ") vy) " ") vz))%eval.

(** [stream >> r] for a writable member reference [r]. *)
Definition extract_into (stream : istream) (r : access) : Mut S istream :=
  fun h => let (stream', s) := extract stream (load h r) in
           (stream', store h r s).

(** [operator>>]:
    [stream >> vector.x() >> vector.y() >> vector.z(); return stream]. *)
Definition operator_shift_right (stream : istream) (vector : loc) :
  Mut S istream :=
  (s1 <- extract_into stream (x_ref vector) ;;
   s2 <- extract_into s1 (y_ref vector) ;;
   s3 <- extract_into s2 (z_ref vector) ;;
   mret s3)%mut.

End Streams.

(** ** Scalar types *)

(** *** Integers *)

(** Integer scalars: [/] truncates towards zero and [std::sqrt] converted
    back to an integer is the integer square root. *)
#[export] Instance Scalar_Z : Scalar Z := {|
  Szero := 0%Z;
  Sone := 1%Z;
  Sadd := Z.add;
  Ssub := Z.sub;
  Smul := Z.mul;
  Sdiv := Z.quot;
  Sneg := Z.opp;
  Ssqrt := Z.sqrt;
  Seqb := Z.eqb
|}.

(** The characters [std::isspace] accepts in the classic locale. *)
Definition is_space (c : ascii) : bool :=
  let n := nat_of_ascii c in
  (Nat.eqb n 32 || (Nat.leb 9 n && Nat.leb n 13))%bool.

Fixpoint skip_space (s : string) : string :=
  match s with
  | String c r => if is_space c then skip_space r else s
  | EmptyString => s
  end.

Definition digit_of_char (c : ascii) : option (Decimal.uint -> Decimal.uint) :=
  match c with
  | "0"%char => Some Decimal.D0
  | "1"%char => Some Decimal.D1
  | "2"%char => Some Decimal.D2
  | "3"%char => Some Decimal.D3
  | "4"%char => Some Decimal.D4
  | "5"%char => Some Decimal.D5
  | "6"%char => Some Decimal.D6
  | "7"%char => Some Decimal.D7
  | "8"%char => Some Decimal.D8
  | "9"%char => Some Decimal.D9
  | _ => None
  end.

(** The longest prefix of decimal digits, and what follows it. *)
Fixpoint take_digits (s : string) : Decimal.uint * string :=
  match s with
  | String c r =>
      match digit_of_char c with
      | Some d => let (ds, rest) := take_digits r in (d ds, rest)
      | None => (Decimal.Nil, s)
      end
  | EmptyString => (Decimal.Nil, s)
  end.

(** An optional sign. *)
Definition take_sign (s : string) : bool * string :=
  match s with
  | String "-"%char r => (true, r)
  | String "+"%char r => (false, r)
  | _ => (false, s)
  end.

(** [stream << n] for an integer: its decimal digits, [-] first when
    negative. *)
Definition show_Z (n : Z) : string :=
  DecimalString.NilZero.string_of_int (Z.to_int n).

(** [stream >> n] for an integer, as the standard library performs it
    (C++11 [istream.formatted.arithmetic], [istream::sentry],
    [facet.num.get.virtuals]):
    - on a stream that has already failed nothing is read or written;
    - leading white space is skipped; if the input ends there the stream
      fails and the target is not written;
    - otherwise a sign and the digits are accumulated; with no digit the
      conversion fails, the stream fails and zero is stored in the target;
      with digits their value is stored. *)
Definition extract_Z (stream : istream) (old : Z) : istream * Z :=
  if failbit stream then (stream, old)
  else
    match skip_space (buffer stream) with
    | EmptyString => (Istream EmptyString true, old)
    | b =>
        let (negative, b1) := take_sign b in
        let (ds, rest) := take_digits b1 in
        match ds with
        | Decimal.Nil => (Istream rest true, 0%Z)
        | _ =>
            (Istream rest false,
             Z.of_int (if negative then Decimal.Neg ds else Decimal.Pos ds))
        end
    end.

#[export] Instance ScalarIO_Z : ScalarIO Z :=
  {| show := show_Z; extract := extract_Z |}.

(** *** Double-precision scalars as text *)

(** The text form of [double] scalars, the scalar type of the header's
    [dvec].  A finite [double] is a rational number, and the stream
    operators are modelled on [Q]:
    - [stream << d] with the stream's default settings formats [d] as
      [printf("%g")] does with the default precision of 6 significant
      digits ([ios_base::precision()], [facet.num.put.virtuals]);
    - [stream >> d] reads an optional sign, digits, an optional fraction
      and an optional decimal exponent, with the failure rules of
      [extract_Z]; the value stored is the rational the text denotes. *)

Definition nb_digits_Z (n : Z) : Z :=
  match n with
  | Zpos p => Z.of_nat (Decimal.nb_digits (Pos.to_uint p))
  | _ => 0%Z
  end.

(** The fraction [n/d] multiplied by [10^k]. *)
Definition scale10 (n d k : Z) : Z * Z :=
  if (0 <=? k)%Z then ((n * 10 ^ k)%Z, d) else (n, (d * 10 ^ (- k))%Z).

(** The decimal exponent of [n/d > 0]: the [e] with
    [10^e <= n/d < 10^(e+1)]. *)
Definition decimal_exponent (n d : Z) : Z :=
  let c := (nb_digits_Z n - nb_digits_Z d)%Z in
  let (n', d') := scale10 n d (- c) in
  if (d' <=? n')%Z then c else (c - 1)%Z.

(** [n/d] rounded to the nearest integer, ties to even. *)
Definition round_half_even (n d : Z) : Z :=
  let f := (n / d)%Z in
  match (2 * (n mod d) ?= d)%Z with
  | Lt => f
  | Gt => (f + 1)%Z
  | Eq => if Z.even f then f else (f + 1)%Z
  end.

Fixpoint strip_zeros (s : string) : string :=
  match s with
  | EmptyString => EmptyString
  | String c r =>
      match strip_zeros r with
      | EmptyString =>
          if Ascii.eqb c "0" then EmptyString else String c EmptyString
      | r' => String c r'
      end
  end.

Fixpoint zeros (n : nat) : string :=
  match n with
  | O => EmptyString
  | Datatypes.S k => String "0" (zeros k)
  end.

Definition with_point (int_part frac : string) : string :=
  match frac with
  | EmptyString => int_part
  | _ => (int_part ++ "." ++ frac)%string
  end.

Definition two_digits (k : Z) : string :=
  if (k <? 10)%Z then ("0" ++ show_Z k)%string else show_Z k.

Definition show_general (precision : Z) (q : Q) : string :=
  match Qnum q with
  | Z0 => "0"%string
  | _ =>
      let n := Z.abs (Qnum q) in
      let d := Zpos (Qden q) in
      let e0 := decimal_exponent n d in
      let (sn, sd) := scale10 n d (precision - 1 - e0) in
      let m0 := round_half_even sn sd in
      let (m, e) :=
        if (10 ^ precision <=? m0)%Z
        then ((10 ^ (precision - 1))%Z, (e0 + 1)%Z) else (m0, e0) in
      let ds := show_Z m in
      let len := String.length ds in
      let body :=
        if ((e <? -4) || (precision <=? e))%Z%bool then
          (with_point (substring 0 1 ds)
                      (strip_zeros (substring 1 (len - 1) ds))
           ++ "e" ++ (if (e <? 0)%Z then "-" else "+")
           ++ two_digits (Z.abs e))%string
        else if (0 <=? e)%Z then
          let k := Datatypes.S (Z.to_nat e) in
          with_point (substring 0 k ds)
                     (strip_zeros (substring k (len - k) ds))
        else
          ("0." ++ zeros (Z.to_nat (- e - 1)) ++ strip_zeros ds)%string
      in
      if (Qnum q <? 0)%Z then ("-" ++ body)%string else body
  end.

(** An optional fraction: a point and the digits after it. *)
Definition take_fraction (s : string) : Decimal.uint * string :=
  match s with
  | String "."%char r => take_digits r
  | _ => (Decimal.Nil, s)
  end.

(** An optional exponent: [e] or [E], an optional sign and digits.  [None]
    when the marker is not followed by a digit. *)
Definition take_exponent (s : string) : option (Z * string) :=
  match s with
  | String c r =>
      if (Ascii.eqb c "e" || Ascii.eqb c "E")%bool then
        let (negative, r1) := take_sign r in
        let (ds, rest) := take_digits r1 in
        match ds with
        | Decimal.Nil => None
        | _ => Some (if negative then (- Z.of_uint ds)%Z else Z.of_uint ds,
                     rest)
        end
      else Some (0%Z, s)
  | EmptyString => Some (0%Z, s)
  end.

Definition extract_Q (stream : istream) (old : Q) : istream * Q :=
  if failbit stream then (stream, old)
  else
    match skip_space (buffer stream) with
    | EmptyString => (Istream EmptyString true, old)
    | b =>
        let (negative, b1) := take_sign b in
        let (ip, b2) := take_digits b1 in
        let (fp, b3) := take_fraction b2 in
        match ip, fp, take_exponent b3 with
        | Decimal.Nil, Decimal.Nil, _ => (Istream b3 true, inject_Z 0)
        | _, _, None => (Istream b3 true, inject_Z 0)
        | _, _, Some (e, rest) =>
            let nf := Z.of_nat (Decimal.nb_digits fp) in
            let mant := (Z.of_uint ip * 10 ^ nf + Z.of_uint fp)%Z in
            let q := Qred (Qmult (inject_Z mant)
                                 (Qpower (inject_Z 10) (e - nf))) in
            (Istream rest false, if negative then Qopp q else q)
        end
    end.

#[export] Instance ScalarIO_double : ScalarIO Q :=
  {| show := show_general 6; extract := extract_Q |}.

(** *** Real numbers *)

(** Real scalars: exact arithmetic and the real square root. *)
#[export] Instance Scalar_R : Scalar Rdefinitions.R := {|
  Szero := Rdefinitions.R0;
  Sone := Rdefinitions.R1;
  Sadd := Rdefinitions.Rplus;
  Ssub := Rdefinitions.Rminus;
  Smul := Rdefinitions.Rmult;
  Sdiv := Rdefinitions.Rdiv;
  Sneg := Rdefinitions.Ropp;
  Ssqrt := R_sqrt.sqrt;
  Seqb := fun a b => if RIneq.Req_dec_T a b then true else false
|}.

(** ** Domain of the square root *)

(** [std::sqrt] has a domain error exactly on a negative argument.  In
    [norm()] the argument is [squaredNorm()]; [norm_domain_error lt e h]
    says that this call is made on a negative argument, for the order
    [lt] of the scalar type. *)
Definition sqrt_domain_error {S} `{Scalar S} (lt : S -> S -> Prop) (arg : S) :
  Prop := lt arg Szero.

Definition norm_domain_error {S} `{Scalar S} {E} `{Vector3D_Expr S E}
  (lt : S -> S -> Prop) (e : E) (h : heap S) : Prop :=
  sqrt_domain_error lt (value (squaredNorm e) h).

(** ** Text of a vector *)

(** What may follow a scalar in the text of a vector: the end of the text
    or the separating space. *)
Definition token_end (rest : string) : Prop :=
  rest = EmptyString \/ exists r, rest = String " " r.

(** A store for the [double] scenario: [1 + 2^-20], [0], [0]
    everywhere. *)
Definition heap_double : heap Q :=
  fun _ => Vector3D_xyz (1048577 # 1048576)%Q (inject_Z 0) (inject_Z 0).

(** ** The eager computation of [a + b * s - c] *)

(** The per-component arithmetic done directly on three vectors, with no
    expression node: [(a.x + b.x * s - c.x, a.y + b.y * s - c.y,
    a.z + b.z * s - c.z)]. *)
Definition eager_sum_scaled_diff {S} `{Scalar S}
  (a b c : Vector3D S) (s : S) : Vector3D S :=
  Vector3D_xyz (m_x a + m_x b * s - m_x c)%S
               (m_y a + m_y b * s - m_y c)%S
               (m_z a + m_z b * s - m_z c)%S.

(** ** Stores used in the concrete scenarios *)

(** [(1,0,0)] at location 0, [(0,1,0)] elsewhere. *)
Definition heap_100_010 : heap Z :=
  fun l => if Nat.eqb l 0
           then Vector3D_xyz 1%Z 0%Z 0%Z else Vector3D_xyz 0%Z 1%Z 0%Z.

(** [(1,2,3)] at location 0, [(4,5,6)] elsewhere. *)
Definition heap_123_456 : heap Z :=
  fun l => if Nat.eqb l 0
           then Vector3D_xyz 1%Z 2%Z 3%Z else Vector3D_xyz 4%Z 5%Z 6%Z.

(** [(3,4,0)] everywhere, over the reals. *)
Definition heap_340 : heap Rdefinitions.R :=
  fun _ => Vector3D_xyz (Rdefinitions.IZR 3) (Rdefinitions.IZR 4)
                        (Rdefinitions.IZR 0).

(** ** Comparing and characterising expressions *)

(** Two vector expressions have the same three components in a store. *)
Definition same_components {S E1 E2}
  `{Vector3D_Expr S E1} `{Vector3D_Expr S E2}
  (e1 : E1) (e2 : E2) (h : heap S) : Prop :=
  value (x e1) h = value (x e2) h
  /\ value (y e1) h = value (y e2) h
  /\ value (z e1) h = value (z e2) h.

(** The components of an expression do not depend on the object at
    [this]: they are the same in any two stores that agree on every other
    object. *)
Definition independent_of {S E} `{Vector3D_Expr S E}
  (this : loc) (e : E) : Prop :=
  forall h1 h2 : heap S,
    (forall l, l <> this -> h1 l = h2 l) ->
    value (x e) h1 = value (x e) h2
    /\ value (y e) h1 = value (y e) h2
    /\ value (z e) h1 = value (z e) h2.

(** ** Declaring a vector from an expression *)

(** The declaration [Vector3D<S> d(e);]: the converting constructor is run
    on [e] and the new object is stored at [d]. *)
Definition declare {S E} `{Vector3D_Expr S E} (d : loc) (e : E) :
  Mut S unit :=
  fun h => (tt, heap_set h d (value (Vector3D_of_expr e) h)).

(** * Properties *)

(** ** The [Eval] and [Mut] effects *)

Section EvalFacts.

Context {S : Type}.

Lemma value_eret {A} (a : A) (h : heap S) : value (eret a) h = a.
Proof. reflexivity. Qed.

Lemma reads_eret {A} (a : A) (h : heap S) : reads (eret a) h = [].
Proof. reflexivity. Qed.

Lemma value_ebind {A B} (m : Eval S A) (k : A -> Eval S B) (h : heap S) :
  value (ebind m k) h = value (k (value m h)) h.
Proof.
  unfold value, ebind. destruct (m h) as [a t1]. simpl.
  destruct (k a h) as [b t2]. reflexivity.
Qed.

Lemma reads_ebind {A B} (m : Eval S A) (k : A -> Eval S B) (h : heap S) :
  reads (ebind m k) h = reads m h ++ reads (k (value m h)) h.
Proof.
  unfold reads, value, ebind. destruct (m h) as [a t1]. simpl.
  destruct (k a h) as [b t2]. reflexivity.
Qed.

Lemma heap_set_same (h : heap S) (l : loc) (v : Vector3D S) :
  heap_set h l v l = v.
Proof. unfold heap_set. now rewrite Nat.eqb_refl. Qed.

Lemma heap_set_other (h : heap S) (l l' : loc) (v : Vector3D S) :
  l' <> l -> heap_set h l v l' = h l'.
Proof.
  intros Hne. unfold heap_set.
  destruct (Nat.eqb_spec l' l) as [Heq | _]; [contradiction | reflexivity].
Qed.

Lemma store_other (h : heap S) (r : access) (s : S) (l' : loc) :
  l' <> fst r -> store h r s l' = h l'.
Proof. intros Hne. unfold store. now apply heap_set_other. Qed.

End EvalFacts.

Create Rewrite HintDb eval.
#[export] Hint Rewrite @value_ebind @value_eret @reads_ebind @reads_eret
  : eval.

(** ** Forcing an expression into a concrete vector *)

Section Construction.

Context {S : Type} `{Scalar S}.
Local Open Scope scalar_scope.

(** The converting constructor evaluates the three accessors of its
    argument once each, [x] then [y] then [z], and stores what they
    returned. *)
Lemma Vector3D_of_expr_spec {E} `{Vector3D_Expr S E} (e : E) (h : heap S) :
  value (Vector3D_of_expr e) h
    = Vector3D_xyz (value (x e) h) (value (y e) h) (value (z e) h)
  /\ reads (Vector3D_of_expr e) h
    = reads (x e) h ++ reads (y e) h ++ reads (z e) h.
Proof.
  unfold Vector3D_of_expr. autorewrite with eval.
  split; [reflexivity | now rewrite app_nil_r].
Qed.

(** C1.  Constructing a [Vector3D] from the chained expression
    [a + b * s - c] (in particular [s = 2.0]) over stored vectors [a], [b],
    [c] stores, in each component, the eagerly computed value
    [a.c + b.c * s - c.c].  The construction evaluates the expression's
    [x()], [y()] and [z()] exactly once each, in this order, and each such
    evaluation reads the matching component of [a], of [b] and of [c]
    exactly once: nine reads in all. *)
Theorem chained_expression_eager (a b c : loc) (s : S) (h : heap S) :
  let e := operator_minus
             (operator_plus (ref a) (operator_times (ref b) s)) (ref c) in
  value (Vector3D_of_expr e) h = eager_sum_scaled_diff (h a) (h b) (h c) s
  /\ value (x e) h = m_x (h a) + m_x (h b) * s - m_x (h c)
  /\ value (y e) h = m_y (h a) + m_y (h b) * s - m_y (h c)
  /\ value (z e) h = m_z (h a) + m_z (h b) * s - m_z (h c)
  /\ reads (Vector3D_of_expr e) h
       = reads (x e) h ++ reads (y e) h ++ reads (z e) h
  /\ reads (x e) h = [(a, AxisX); (b, AxisX); (c, AxisX)]
  /\ reads (y e) h = [(a, AxisY); (b, AxisY); (c, AxisY)]
  /\ reads (z e) h = [(a, AxisZ); (b, AxisZ); (c, AxisZ)].
Proof.
  intros e. repeat split.
Qed.

(** With three distinct operands every stored component is read exactly
    once during the construction. *)
Lemma chained_expression_reads_once (a b c : loc) (s : S) (h : heap S) :
  a <> b -> a <> c -> b <> c ->
  forall (o : loc) (ax : axis), In o [a; b; c] ->
  count_occ access_eq_dec
    (reads (Vector3D_of_expr
              (operator_minus
                 (operator_plus (ref a) (operator_times (ref b) s)) (ref c)))
           h) (o, ax) = 1%nat.
Proof.
  intros Hab Hac Hbc o ax Hin.
  change (reads _ h) with
    [(a, AxisX); (b, AxisX); (c, AxisX); (a, AxisY); (b, AxisY); (c, AxisY);
     (a, AxisZ); (b, AxisZ); (c, AxisZ)].
  simpl in Hin.
  destruct Hin as [<- | [<- | [<- | []]]]; destruct ax;
    repeat first
      [ rewrite count_occ_cons_eq by reflexivity
      | rewrite count_occ_cons_neq by congruence ];
    reflexivity.
Qed.

End Construction.

(** ** Values of the accessors, node by node *)

Section NodeValues.

Context {S : Type} `{Scalar S}.
Local Open Scope scalar_scope.

Lemma value_ref (l : loc) (h : heap S) :
  value (x (ref l)) h = m_x (h l)
  /\ value (y (ref l)) h = m_y (h l)
  /\ value (z (ref l)) h = m_z (h l).
Proof. repeat split. Qed.

Section Binary.

Context {E1 E2 : Type} `{Vector3D_Expr S E1} `{Vector3D_Expr S E2}.
Variables (l : E1) (r : E2) (h : heap S).

Lemma value_SumExpr :
  value (x (SumExpr l r)) h = value (x l) h + value (x r) h
  /\ value (y (SumExpr l r)) h = value (y l) h + value (y r) h
  /\ value (z (SumExpr l r)) h = value (z l) h + value (z r) h.
Proof. simpl. autorewrite with eval. repeat split. Qed.

Lemma value_DiffExpr :
  value (x (DiffExpr l r)) h = value (x l) h - value (x r) h
  /\ value (y (DiffExpr l r)) h = value (y l) h - value (y r) h
  /\ value (z (DiffExpr l r)) h = value (z l) h - value (z r) h.
Proof. simpl. autorewrite with eval. repeat split. Qed.

Lemma value_CrossExpr :
  value (x (CrossExpr l r)) h
    = value (y l) h * value (z r) h - value (y r) h * value (z l) h
  /\ value (y (CrossExpr l r)) h
    = value (z l) h * value (x r) h - value (z r) h * value (x l) h
  /\ value (z (CrossExpr l r)) h
    = value (x l) h * value (y r) h - value (x r) h * value (y l) h.
Proof. simpl. autorewrite with eval. repeat split. Qed.

Lemma value_dot :
  value (dot l r) h
    = value (x l) h * value (x r) h + value (y l) h * value (y r) h
      + value (z l) h * value (z r) h.
Proof. unfold dot. autorewrite with eval. reflexivity. Qed.

End Binary.

Section Unary.

Context {E : Type} `{Vector3D_Expr S E}.
Variables (e : E) (h : heap S).

Lemma value_MultExpr {S2} `{ScalarOperand S S2} (s : S2) :
  value (x (MultExpr e s)) h = mul_scalar (value (x e) h) s
  /\ value (y (MultExpr e s)) h = mul_scalar (value (y e) h) s
  /\ value (z (MultExpr e s)) h = mul_scalar (value (z e) h) s.
Proof. simpl. autorewrite with eval. repeat split. Qed.

Lemma value_DivExpr {S2} `{ScalarOperand S S2} (s : S2) :
  value (x (DivExpr e s)) h = div_scalar (value (x e) h) s
  /\ value (y (DivExpr e s)) h = div_scalar (value (y e) h) s
  /\ value (z (DivExpr e s)) h = div_scalar (value (z e) h) s.
Proof. simpl. autorewrite with eval. repeat split. Qed.

Lemma value_squaredNorm :
  value (squaredNorm e) h
    = value (x e) h * value (x e) h + value (y e) h * value (y e) h
      + value (z e) h * value (z e) h.
Proof. unfold squaredNorm. apply value_dot. Qed.

Lemma value_norm : value (norm e) h = Ssqrt (value (squaredNorm e) h).
Proof. unfold norm. autorewrite with eval. reflexivity. Qed.

End Unary.

End NodeValues.

(** ** Arithmetic under the ring laws *)

Section RingScalar.

Context {S : Type} `{Scalar S}.
Local Open Scope scalar_scope.

Hypothesis Sring : ring_theory Szero Sone Sadd Smul Ssub Sneg (@eq S).

Add Ring Sring_ring : Sring.

(** C2.  For [Vector3D(1,2,3)] and [Vector3D(4,5,6)], over any scalar
    type whose arithmetic obeys the ring laws: the sum evaluates to
    [(5,7,9)], the difference to [(-3,-3,-3)], the dot product to [32] and
    the cross product to [(-3,6,-3)]. *)
Theorem scenario_1 (h : heap S) (a b : loc)
  (Ha : h a = Vector3D_xyz (Slit 1) (Slit 2) (Slit 3))
  (Hb : h b = Vector3D_xyz (Slit 4) (Slit 5) (Slit 6)) :
  value (Vector3D_of_expr (operator_plus (ref a) (ref b))) h
    = Vector3D_xyz (Slit 5) (Slit 7) (Slit 9)
  /\ value (Vector3D_of_expr (operator_minus (ref a) (ref b))) h
    = Vector3D_xyz (Slit (-3)) (Slit (-3)) (Slit (-3))
  /\ value (dot (ref a) (ref b)) h = Slit 32
  /\ value (Vector3D_of_expr (cross (ref a) (ref b))) h
    = Vector3D_xyz (Slit (-3)) (Slit 6) (Slit (-3)).
Proof.
  unfold value, Vector3D_of_expr, dot, cross, operator_plus, operator_minus.
  cbn -[Slit]. unfold load. cbn -[Slit]. rewrite Ha, Hb. cbn.
  repeat split; try (f_equal; ring); ring.
Qed.

(** C9.  [v += v]: the compound addition of a stored vector to itself
    returns a reference to it.  Each of the three updates reads the
    component of the right-hand side that it adds in a store where that
    component still has its original value, so the vector is left holding,
    in each component, the original component added to itself, which is
    twice the original component; every other object is untouched. *)
Theorem plus_assign_self (this : loc) (h : heap S) :
  let v := ref this in
  let h1 := snd (compound_assign Sadd (this, AxisX) (x v) h) in
  let h2 := snd (compound_assign Sadd (this, AxisY) (y v) h1) in
  let r := fst (operator_plus_assign this v h) in
  let h' := snd (operator_plus_assign this v h) in
  r = this
  /\ value (x v) h = m_x (h this)
  /\ value (y v) h1 = m_y (h this)
  /\ value (z v) h2 = m_z (h this)
  /\ h' = snd (compound_assign Sadd (this, AxisZ) (z v) h2)
  /\ h' this = Vector3D_xyz (m_x (h this) + m_x (h this))
                            (m_y (h this) + m_y (h this))
                            (m_z (h this) + m_z (h this))
  /\ h' this = Vector3D_xyz ((Sone + Sone) * m_x (h this))
                            ((Sone + Sone) * m_y (h this))
                            ((Sone + Sone) * m_z (h this))
  /\ forall l, l <> this -> h' l = h l.
Proof.
  intros v h1 h2 r h'.
  unfold r, h', h2, h1, v, operator_plus_assign, compound_assign,
    mbind, lift, get, put, mret, value.
  cbn. unfold load, store. cbn.
  rewrite !heap_set_same. cbn.
  repeat (split; [reflexivity |]).
  split; [f_equal; ring |].
  intros l Hl. now rewrite !heap_set_other.
Qed.

End RingScalar.

(** ** [normalized] *)

Section Normalized.

Context {S : Type} `{Scalar S}.
Local Open Scope scalar_scope.

(** C5.  [v.normalized()] returns a new vector whose components are the
    components of [v] each divided by [v.norm()], which is what forcing
    the expression [v / v.norm()] gives, and the call leaves the store,
    hence [v], as it was.  This holds for every [v]; a non-zero norm is
    not needed for it. *)
Theorem normalized_spec (this : loc) (h : heap S) :
  let n := value (norm (ref this)) h in
  value (normalized this) h
    = Vector3D_xyz (m_x (h this) / n) (m_y (h this) / n) (m_z (h this) / n)
  /\ value (normalized this) h
    = value (Vector3D_of_expr (operator_divide (ref this) n)) h
  /\ snd (lift (normalized this) h) = h.
Proof. intros n. repeat split. Qed.

End Normalized.

(** ** The two members that do not say what they mean *)

Section Defects.

Context {S : Type} `{Scalar S}.
Local Open Scope scalar_scope.
Local Open Scope string_scope.

(** C4.  [Vector3D::operator==] as written compares each member with a
    member-function name, so it is ill-formed and yields no truth value
    for any pair of vectors, equal or not. *)
Theorem operator_equal_ill_formed (this vector : loc) (h : heap S) :
  value (operator_equal this vector) h = None.
Proof. reflexivity. Qed.


End Defects.

(** C7.  For [a = (1,0,0)] and [b = (0,1,0)], [a.cross(b)] forces to
    [(0,0,1)], while [-(b.cross(a))], written with the unary operator,
    has no result: the operator builds its node from the name [v], which
    the header does not declare.  There is nothing for the components of
    [a.cross(b)] to be equal to. *)
Theorem cross_negated_by_operator :
  let a := ref 0 in
  let b := ref 1 in
  value (Vector3D_of_expr (cross a b)) heap_100_010
    = Vector3D_xyz 0%Z 0%Z 1%Z
  /\ operator_negate [] (cross b a) = None.
Proof. split; reflexivity. Qed.

(** ** The square root in [norm] *)

Section OrderedScalar.

Context {S : Type} `{Scalar S}.
Local Open Scope scalar_scope.

Variables (Sle Slt : S -> S -> Prop).

Hypothesis Sordered :
  OrderedRing.SOR Szero Sone Sadd Smul Ssub Sneg (@eq S) Sle Slt.

Lemma sum_of_squares_nonneg (a b c : S) :
  Sle Szero (a * a + b * b + c * c).
Proof.
  apply (OrderedRing.Rplus_nonneg_nonneg Sordered).
  - apply (OrderedRing.Rplus_nonneg_nonneg Sordered);
      apply (OrderedRing.Rtimes_square_nonneg Sordered).
  - apply (OrderedRing.Rtimes_square_nonneg Sordered).
Qed.

(** C6.  Over an ordered scalar ring (a real scalar type), for every
    vector expression: [squaredNorm()] is the sum of the squares of the
    three components and so is not negative; [norm()] is [std::sqrt] of
    exactly that value, which is therefore never a negative argument: the
    call has no domain error. *)
Theorem norm_no_domain_error {E} `{Vector3D_Expr S E} (e : E) (h : heap S) :
  value (squaredNorm e) h
    = value (x e) h * value (x e) h + value (y e) h * value (y e) h
      + value (z e) h * value (z e) h
  /\ Sle Szero (value (squaredNorm e) h)
  /\ value (norm e) h = Ssqrt (value (squaredNorm e) h)
  /\ ~ norm_domain_error Slt e h.
Proof.
  assert (Hnn : Sle Szero (value (squaredNorm e) h)).
  { rewrite value_squaredNorm. apply sum_of_squares_nonneg. }
  split; [apply value_squaredNorm |].
  split; [exact Hnn |].
  split; [apply value_norm |].
  unfold norm_domain_error, sqrt_domain_error.
  now apply (OrderedRing.Rle_ngt Sordered).
Qed.

End OrderedScalar.

(** On the reals the square root in [norm] is a true root: [norm()]
    squared is [squaredNorm()]. *)
Lemma norm_squared_real {E} `{Vector3D_Expr Rdefinitions.R E}
  (e : E) (h : heap Rdefinitions.R) :
  Rdefinitions.Rmult (value (norm e) h) (value (norm e) h)
    = value (squaredNorm e) h.
Proof.
  rewrite value_norm. apply R_sqrt.sqrt_sqrt.
  rewrite value_squaredNorm.
  apply (@sum_of_squares_nonneg Rdefinitions.R Scalar_R
           Rdefinitions.Rle Rdefinitions.Rlt RMicromega.Rsor).
Qed.

(** ** Text output and input *)

Lemma string_app_assoc (s t u : string) :
  ((s ++ t) ++ u)%string = (s ++ (t ++ u))%string.
Proof. induction s as [| c s IH]; simpl; [reflexivity | now rewrite IH]. Qed.

Lemma string_app_nil_r (s : string) : (s ++ "")%string = s.
Proof. induction s as [| c s IH]; simpl; [reflexivity | now rewrite IH]. Qed.

Section Text.

Context {S : Type} `{ScalarIO S}.
Local Open Scope string_scope.

(** The text written for a vector expression: the three components in the
    order x, y, z, one space between two of them, nothing after the
    last. *)
Lemma operator_shift_left_text {E} `{Vector3D_Expr S E}
  (stream : ostream) (e : E) (h : heap S) :
  value (operator_shift_left stream e) h
    = stream ++ show (value (x e) h) ++ " " ++ show (value (y e) h)
      ++ " " ++ show (value (z e) h).
Proof.
  unfold operator_shift_left, insert_scalar, insert_char.
  autorewrite with eval. now rewrite !string_app_assoc.
Qed.

Lemma mbind_eq {A B} (m : Mut S A) (k : A -> Mut S B) (h : heap S) :
  mbind m k h = k (fst (m h)) (snd (m h)).
Proof. unfold mbind. now destruct (m h). Qed.

Lemma extract_into_eq (stream : istream) (r : access) (h : heap S) :
  extract_into stream r h
    = (fst (extract stream (load h r)),
       store h r (snd (extract stream (load h r)))).
Proof. unfold extract_into. now destruct (extract stream (load h r)). Qed.

(** What [operator>>] leaves in the destination and in the stream, in
    terms of the three scalar extractions it performs in turn. *)
Lemma operator_shift_right_steps (stream : istream) (vector : loc)
  (h : heap S) :
  let old := h vector in
  let r1 := extract stream (m_x old) in
  let r2 := extract (fst r1) (m_y old) in
  let r3 := extract (fst r2) (m_z old) in
  fst (operator_shift_right stream vector h) = fst r3
  /\ snd (operator_shift_right stream vector h) vector
       = Vector3D_xyz (snd r1) (snd r2) (snd r3)
  /\ forall l, l <> vector ->
       snd (operator_shift_right stream vector h) l = h l.
Proof.
  intros old r1 r2 r3.
  unfold operator_shift_right, mret.
  rewrite !mbind_eq, !extract_into_eq.
  unfold x_ref, y_ref, z_ref, load, store. cbn [fst snd].
  rewrite !heap_set_same. cbn [m_x m_y m_z fst snd].
  repeat split.
  intros l Hl. now rewrite !heap_set_other.
Qed.

Section RoundTrip.

(** The scalar type's own text round trip: the extraction reads back a
    scalar that was written and stops where its text stops, and it skips a
    separating space before the text. *)
Hypothesis extract_show :
  forall (s old : S) (rest : string), token_end rest ->
    extract (Istream (show s ++ rest) false) old = (Istream rest false, s).

Hypothesis extract_skip_space :
  forall (b : string) (old : S),
    extract (Istream (String " " b) false) old
      = extract (Istream b false) old.

(** C8, as amended.  When the scalar type's text output and input round
    trip, so do the vector's: the text written for a concrete vector is
    its x, y, z texts separated by single spaces with nothing after the
    last, and reading that text into any concrete vector consumes it
    entirely, without failure, and leaves the destination equal to the
    vector written. *)
Theorem text_round_trip (src dst : loc) (h : heap S) :
  let text := value (operator_shift_left "" (ref src)) h in
  text = show (m_x (h src)) ++ " " ++ show (m_y (h src))
         ++ " " ++ show (m_z (h src))
  /\ fst (operator_shift_right (Istream text false) dst h)
       = Istream "" false
  /\ snd (operator_shift_right (Istream text false) dst h) dst = h src.
Proof.
  intros text.
  assert (Htext : text = show (m_x (h src)) ++ " " ++ show (m_y (h src))
                         ++ " " ++ show (m_z (h src))).
  { unfold text. now rewrite operator_shift_left_text. }
  split; [exact Htext |].
  destruct (operator_shift_right_steps (Istream text false) dst h)
    as (Hs & Hv & _).
  rewrite Hs, Hv, Htext. clear Hs Hv Htext text.
  rewrite extract_show by (right; eexists; reflexivity). cbn [fst snd].
  change (" " ++ show (m_y (h src)) ++ " " ++ show (m_z (h src)))
    with (String " " (show (m_y (h src)) ++ " " ++ show (m_z (h src)))).
  rewrite extract_skip_space.
  rewrite extract_show by (right; eexists; reflexivity).
  cbn [fst snd].
  change (" " ++ show (m_z (h src))) with (String " " (show (m_z (h src)))).
  rewrite extract_skip_space.
  rewrite <- (string_app_nil_r (show (m_z (h src)))).
  rewrite extract_show by (left; reflexivity). cbn [fst snd].
  split; [reflexivity |]. now destruct (h src).
Qed.

End RoundTrip.

Section Failure.

(** A stream that has failed performs no further extraction
    ([istream::sentry]): the stream and the target stay as they are. *)
Hypothesis extract_failed :
  forall (stream : istream) (old : S),
    failbit stream = true -> extract stream old = (stream, old).

(** C10, as amended.  [operator>>] performs the three scalar extractions
    in the order x, y, z, each through the writable reference to its
    component, and touches no other object.  If the first extraction
    fails, y and z keep their previous values; if the first succeeds and
    the second fails, x holds the first extracted value and z keeps its
    previous value; if the first two succeed, x and y hold the extracted
    values.  The component whose extraction failed holds what the scalar
    extraction left in it. *)
Theorem shift_right_partial (stream : istream) (vector : loc) (h : heap S) :
  let old := h vector in
  let r1 := extract stream (m_x old) in
  let r2 := extract (fst r1) (m_y old) in
  let r3 := extract (fst r2) (m_z old) in
  let stream' := fst (operator_shift_right stream vector h) in
  let h' := snd (operator_shift_right stream vector h) in
  (forall l, l <> vector -> h' l = h l)
  /\ (failbit (fst r1) = true ->
        stream' = fst r1
        /\ h' vector = Vector3D_xyz (snd r1) (m_y old) (m_z old))
  /\ (failbit (fst r1) = false -> failbit (fst r2) = true ->
        stream' = fst r2
        /\ h' vector = Vector3D_xyz (snd r1) (snd r2) (m_z old))
  /\ (failbit (fst r1) = false -> failbit (fst r2) = false ->
        stream' = fst r3
        /\ h' vector = Vector3D_xyz (snd r1) (snd r2) (snd r3)).
Proof.
  intros old r1 r2 r3 stream' h'.
  destruct (operator_shift_right_steps stream vector h) as (Hs & Hv & Ho).
  fold old r1 r2 r3 in Hs, Hv. fold stream' in Hs. fold h' in Hv, Ho.
  split; [exact Ho |].
  split; [| split].
  - intros F1.
    assert (E2 : r2 = (fst r1, m_y old))
      by (unfold r2; now apply extract_failed).
    assert (E3 : r3 = (fst r1, m_z old))
      by (unfold r3; rewrite E2; now apply extract_failed).
    rewrite Hs, Hv, E3, E2. split; reflexivity.
  - intros _ F2.
    assert (E3 : r3 = (fst r2, m_z old))
      by (unfold r3; now apply extract_failed).
    rewrite Hs, Hv, E3. split; reflexivity.
  - intros _ _. rewrite Hs, Hv. split; reflexivity.
Qed.

End Failure.

End Text.

(** ** The integer scalars obey the assumptions made on scalar text *)

Section IntegerText.

Local Open Scope string_scope.

Lemma extract_Z_failed (stream : istream) (old : Z) :
  failbit stream = true -> extract_Z stream old = (stream, old).
Proof. intros F. unfold extract_Z. now rewrite F. Qed.

Lemma extract_Z_skip_space (b : string) (old : Z) :
  extract_Z (Istream (String " " b) false) old
    = extract_Z (Istream b false) old.
Proof. reflexivity. Qed.

Lemma take_digits_string_of_uint (d : Decimal.uint) (rest : string) :
  token_end rest ->
  take_digits (NilEmpty.string_of_uint d ++ rest) = (d, rest).
Proof.
  intros Hrest.
  induction d as [| d IH | d IH | d IH | d IH | d IH | d IH | d IH | d IH
                  | d IH | d IH]; simpl; try (now rewrite IH).
  destruct Hrest as [-> | [r ->]]; reflexivity.
Qed.

(** Reading back the digits of a non-empty numeral. *)
Lemma extract_Z_digits (negative : bool) (d : Decimal.uint) (rest : string)
  (old : Z) :
  d <> Decimal.Nil -> token_end rest ->
  extract_Z
    (Istream ((if negative then "-" else "")
              ++ NilEmpty.string_of_uint d ++ rest) false) old
  = (Istream rest false,
     Z.of_int (if negative then Decimal.Neg d else Decimal.Pos d)).
Proof.
  intros Hd Hrest.
  pose proof (@take_digits_string_of_uint d rest Hrest) as Htd.
  unfold extract_Z. cbn [failbit buffer].
  destruct negative; destruct d; try contradiction;
    simpl in *; rewrite Htd; reflexivity.
Qed.

Lemma extract_Z_show (n old : Z) (rest : string) :
  token_end rest ->
  extract_Z (Istream (show_Z n ++ rest) false) old = (Istream rest false, n).
Proof.
  intros Hrest. unfold show_Z.
  rewrite <- (DecimalZ.of_to n) at 2.
  destruct n as [| p | p]; cbn [Z.to_int NilZero.string_of_int].
  - apply (@extract_Z_digits false (Decimal.D0 Decimal.Nil) rest old);
      [discriminate | exact Hrest].
  - pose proof (DecimalPos.Unsigned.to_uint_nonnil p) as Hp.
    replace (NilZero.string_of_uint (Pos.to_uint p))
      with (NilEmpty.string_of_uint (Pos.to_uint p))
      by (destruct (Pos.to_uint p); [contradiction | reflexivity ..]).
    exact (@extract_Z_digits false (Pos.to_uint p) rest old Hp Hrest).
  - pose proof (DecimalPos.Unsigned.to_uint_nonnil p) as Hp.
    replace (NilZero.string_of_uint (Pos.to_uint p))
      with (NilEmpty.string_of_uint (Pos.to_uint p))
      by (destruct (Pos.to_uint p); [contradiction | reflexivity ..]).
    exact (@extract_Z_digits true (Pos.to_uint p) rest old Hp Hrest).
Qed.

End IntegerText.

(** ** Instances of the theorems and counterexamples *)

Section Instances.

Local Open Scope string_scope.

(** [scenario_1] on the integers. *)
Lemma scenario_1_witness :
  ring_theory 0%Z 1%Z Z.add Z.mul Z.sub Z.opp (@eq Z)
  /\ heap_123_456 0 = Vector3D_xyz (Slit 1) (Slit 2) (Slit 3)
  /\ heap_123_456 1 = Vector3D_xyz (Slit 4) (Slit 5) (Slit 6)
  /\ value (Vector3D_of_expr (operator_plus (ref 0) (ref 1))) heap_123_456
       = Vector3D_xyz 5%Z 7%Z 9%Z
  /\ value (Vector3D_of_expr (operator_minus (ref 0) (ref 1))) heap_123_456
       = Vector3D_xyz (-3)%Z (-3)%Z (-3)%Z
  /\ value (dot (ref 0) (ref 1)) heap_123_456 = 32%Z
  /\ value (Vector3D_of_expr (cross (ref 0) (ref 1))) heap_123_456
       = Vector3D_xyz (-3)%Z 6%Z (-3)%Z.
Proof.
  split; [exact InitialRing.Zth |].
  split; [reflexivity |]. split; [reflexivity |].
  exact (@scenario_1 Z Scalar_Z InitialRing.Zth heap_123_456 0 1
           eq_refl eq_refl).
Defined.

(** [plus_assign_self] on the integers: [(1,2,3)] becomes [(2,4,6)]. *)
Lemma plus_assign_self_witness :
  ring_theory 0%Z 1%Z Z.add Z.mul Z.sub Z.opp (@eq Z)
  /\ fst (operator_plus_assign 0 (ref 0) heap_123_456) = 0
  /\ snd (operator_plus_assign 0 (ref 0) heap_123_456) 0
       = Vector3D_xyz 2%Z 4%Z 6%Z.
Proof.
  pose proof (@plus_assign_self Z Scalar_Z InitialRing.Zth 0 heap_123_456)
    as (Hr & _ & _ & _ & _ & Hv & _).
  split; [exact InitialRing.Zth |]. split; [exact Hr | exact Hv].
Defined.

(** [norm_no_domain_error] on the reals, for [(3,4,0)]. *)
Lemma norm_no_domain_error_witness :
  OrderedRing.SOR Rdefinitions.R0 Rdefinitions.R1 Rdefinitions.Rplus
    Rdefinitions.Rmult Rdefinitions.Rminus Rdefinitions.Ropp
    (@eq Rdefinitions.R) Rdefinitions.Rle Rdefinitions.Rlt
  /\ Rdefinitions.Rle Rdefinitions.R0 (value (squaredNorm (ref 0)) heap_340)
  /\ ~ norm_domain_error Rdefinitions.Rlt (ref 0) heap_340.
Proof.
  pose proof (@norm_no_domain_error Rdefinitions.R Scalar_R
                Rdefinitions.Rle Rdefinitions.Rlt RMicromega.Rsor
                Vector3D_ref _ (ref 0) heap_340) as (_ & Hle & _ & Hno).
  split; [exact RMicromega.Rsor |]. split; [exact Hle | exact Hno].
Defined.

(** [text_round_trip] on the integers: [(1,2,3)] is written as ["1 2 3"]
    and read back. *)
Lemma text_round_trip_witness :
  (forall (s old : Z) (rest : string), token_end rest ->
     extract (Istream (show s ++ rest) false) old = (Istream rest false, s))
  /\ (forall (b : string) (old : Z),
        extract (Istream (String " " b) false) old
          = extract (Istream b false) old)
  /\ value (operator_shift_left "" (ref 0)) heap_123_456 = "1 2 3"
  /\ fst (operator_shift_right (Istream "1 2 3" false) 1 heap_123_456)
       = Istream "" false
  /\ snd (operator_shift_right (Istream "1 2 3" false) 1 heap_123_456) 1
       = Vector3D_xyz 1%Z 2%Z 3%Z.
Proof.
  split; [exact extract_Z_show |]. split; [exact extract_Z_skip_space |].
  exact (@text_round_trip Z ScalarIO_Z extract_Z_show extract_Z_skip_space
           0 1 heap_123_456).
Defined.

(** C8, counterexample.  A [double] vector whose x is [1 + 2^-20] is
    written as ["1 0 0"] at the default precision; reading that text back
    gives [(1,0,0)], which is not the vector written. *)
Lemma text_round_trip_double_counterexample :
  value (operator_shift_left "" (ref 0)) heap_double = "1 0 0"
  /\ snd (operator_shift_right
            (Istream (value (operator_shift_left "" (ref 0)) heap_double)
                     false) 1 heap_double) 1
       = Vector3D_xyz (1 # 1)%Q (0 # 1)%Q (0 # 1)%Q
  /\ snd (operator_shift_right
            (Istream (value (operator_shift_left "" (ref 0)) heap_double)
                     false) 1 heap_double) 1
       <> heap_double 0
  /\ ~ Qeq (m_x (snd (operator_shift_right
                        (Istream
                           (value (operator_shift_left "" (ref 0))
                                  heap_double) false) 1 heap_double) 1))
           (m_x (heap_double 0)).
Proof.
  split; [vm_compute; reflexivity |].
  split; [vm_compute; reflexivity |].
  split; [vm_compute; discriminate |].
  vm_compute. discriminate.
Defined.

(** [shift_right_partial] on the integers, for the text ["7 abc"] read
    into [(1,2,3)]. *)
Lemma shift_right_partial_witness :
  (forall (stream : istream) (old : Z),
     failbit stream = true -> extract stream old = (stream, old))
  /\ failbit (fst (extract_Z (Istream "7 abc" false) 1%Z)) = false
  /\ failbit (fst (extract_Z (Istream " abc" false) 2%Z)) = true
  /\ fst (operator_shift_right (Istream "7 abc" false) 0 heap_123_456)
       = Istream "abc" true
  /\ snd (operator_shift_right (Istream "7 abc" false) 0 heap_123_456) 0
       = Vector3D_xyz 7%Z (snd (extract_Z (Istream " abc" false) 2%Z)) 3%Z.
Proof.
  pose proof (@shift_right_partial Z ScalarIO_Z extract_Z_failed
                (Istream "7 abc" false) 0 heap_123_456)
    as (_ & _ & H2 & _).
  split; [exact extract_Z_failed |].
  split; [reflexivity |]. split; [reflexivity |].
  exact (H2 eq_refl eq_refl).
Defined.

(** C10, counterexample.  Reading ["7 abc"] into [(1,2,3)]: one token is
    extracted, the second extraction fails, and the vector is left as
    [(7,0,3)]: its y component, which is not among the first one
    component, did not keep its previous value [2]. *)
Lemma shift_right_malformed_counterexample :
  failbit (fst (operator_shift_right (Istream "7 abc" false) 0 heap_123_456))
    = true
  /\ snd (operator_shift_right (Istream "7 abc" false) 0 heap_123_456) 0
       = Vector3D_xyz 7%Z 0%Z 3%Z
  /\ m_y (snd (operator_shift_right (Istream "7 abc" false) 0 heap_123_456) 0)
       <> m_y (heap_123_456 0).
Proof.
  split; [reflexivity |]. split; [reflexivity |]. vm_compute. discriminate.
Defined.

(** When the input ends after the first token the second extraction fails
    without writing: ["7"] read into [(1,2,3)] leaves [(7,2,3)]. *)
Example shift_right_end_of_input :
  failbit (fst (operator_shift_right (Istream "7" false) 0 heap_123_456))
    = true
  /\ snd (operator_shift_right (Istream "7" false) 0 heap_123_456) 0
       = Vector3D_xyz 7%Z 2%Z 3%Z.
Proof. split; reflexivity. Qed.

End Instances.

(** * Further properties *)

(** ** Algebra of the expression nodes *)

(** Evaluates the accessors of the nodes in the goal down to the
    accessors of their operands. *)
Ltac node_values :=
  unfold same_components, norm, squaredNorm, dot, cross, operator_plus,
    operator_minus, operator_times, operator_times_left, operator_divide,
    Vector3D_of_expr;
  simpl; autorewrite with eval.

Section Algebra.

Context {S : Type} `{Scalar S}.
Local Open Scope scalar_scope.

Hypothesis Sring : ring_theory Szero Sone Sadd Smul Ssub Sneg (@eq S).

Add Ring Sring_algebra : Sring.

Section ThreeOperands.

Context {E1 E2 E3 : Type}
  `{Vector3D_Expr S E1} `{Vector3D_Expr S E2} `{Vector3D_Expr S E3}.
Variables (a : E1) (b : E2) (c : E3) (h : heap S).

(** X1.  Addition of vector expressions is commutative and associative,
    component by component. *)
Theorem sum_commutative_associative :
  same_components (operator_plus a b) (operator_plus b a) h
  /\ same_components (operator_plus (operator_plus a b) c)
                     (operator_plus a (operator_plus b c)) h.
Proof. node_values. repeat split; ring. Qed.

(** X2.  Subtraction undoes addition: [a - a] forces to the default
    (zero) vector, [(a - b) + b] has the components of [a], and
    subtracting a sum is subtracting its terms in turn. *)
Theorem difference_properties :
  value (Vector3D_of_expr (operator_minus a a)) h = Vector3D_default
  /\ same_components (operator_plus (operator_minus a b) b) a h
  /\ same_components (operator_minus a (operator_plus b c))
                     (operator_minus (operator_minus a b) c) h.
Proof.
  node_values. repeat split; try ring.
  unfold Vector3D_default. f_equal; ring.
Qed.

(** X3.  Scaling distributes over sums and differences, and the two
    overloads of [operator*] ([vector * scalar] and [scalar * vector])
    give the same components. *)
Theorem scaling_distributes (s : S) :
  same_components (operator_times (operator_plus a b) s)
    (operator_plus (operator_times a s) (operator_times b s)) h
  /\ same_components (operator_times (operator_minus a b) s)
    (operator_minus (operator_times a s) (operator_times b s)) h
  /\ same_components (operator_times_left s a) (operator_times a s) h.
Proof. node_values. repeat split; ring. Qed.

(** X4.  The dot product is symmetric and linear in its first operand. *)
Theorem dot_symmetric_bilinear (s : S) :
  value (dot a b) h = value (dot b a) h
  /\ value (dot (operator_plus a b) c) h
       = value (dot a c) h + value (dot b c) h
  /\ value (dot (operator_times a s) b) h = s * value (dot a b) h.
Proof. node_values. repeat split; ring. Qed.

(** X5.  The cross product of an expression with itself forces to the
    zero vector, and a cross product is orthogonal to both operands. *)
Theorem cross_self_and_orthogonal :
  value (Vector3D_of_expr (cross a a)) h = Vector3D_default
  /\ value (dot a (cross a b)) h = Szero
  /\ value (dot b (cross a b)) h = Szero.
Proof.
  node_values. repeat split; try ring.
  unfold Vector3D_default. f_equal; ring.
Qed.

(** X6.  Lagrange's identity: the squared norm of [a.cross(b)] is the
    product of the squared norms minus the square of the dot product. *)
Theorem cross_squaredNorm :
  value (squaredNorm (cross a b)) h
    = value (squaredNorm a) h * value (squaredNorm b) h
      - value (dot a b) h * value (dot a b) h.
Proof. node_values. ring. Qed.

(** X7.  Triple products.  [a.cross(b.cross(c))] has the components of
    [b * a.dot(c) - c * a.dot(b)], and the scalar triple product is
    invariant under rotating its operands. *)
Theorem triple_products :
  same_components (cross a (cross b c))
    (operator_minus (operator_times b (value (dot a c) h))
                    (operator_times c (value (dot a b) h))) h
  /\ value (dot a (cross b c)) h = value (dot b (cross c a)) h.
Proof. node_values. repeat split; ring. Qed.

End ThreeOperands.

End Algebra.

(** ** The compound assignments *)

Section Independence.

Context {S : Type} `{Scalar S}.

(** A stored vector other than [this] does not depend on [this], and the
    nodes preserve independence. *)
Lemma independent_of_ref (this l : loc) :
  l <> this -> independent_of (S := S) this (ref l).
Proof.
  intros Hl h1 h2 Hagree. unfold value; simpl. unfold load; simpl.
  now rewrite (Hagree l Hl).
Qed.

Lemma independent_of_SumExpr {E1 E2}
  `{Vector3D_Expr S E1} `{Vector3D_Expr S E2}
  (this : loc) (l : E1) (r : E2) :
  independent_of this l -> independent_of this r ->
  independent_of this (SumExpr l r).
Proof.
  intros Hl Hr h1 h2 Hagree.
  destruct (Hl h1 h2 Hagree) as (Lx & Ly & Lz).
  destruct (Hr h1 h2 Hagree) as (Rx & Ry & Rz).
  simpl. autorewrite with eval. now rewrite Lx, Ly, Lz, Rx, Ry, Rz.
Qed.

Lemma independent_of_MultExpr {E} `{Vector3D_Expr S E}
  (this : loc) (e : E) (s : S) :
  independent_of this e -> independent_of this (MultExpr e s).
Proof.
  intros He h1 h2 Hagree.
  destruct (He h1 h2 Hagree) as (Ex & Ey & Ez).
  simpl. autorewrite with eval. now rewrite Ex, Ey, Ez.
Qed.

End Independence.

Section CompoundAssignments.

Context {S : Type} `{Scalar S}.
Local Open Scope scalar_scope.

(** One compound assignment on a member. *)
Lemma compound_assign_eq (op : S -> S -> S) (r : access)
  (rhs : Eval S S) (h : heap S) :
  compound_assign op r rhs h
    = (tt, store h r (op (load h r) (value rhs h))).
Proof. reflexivity. Qed.

Lemma load_store_same (h : heap S) (l : loc) (c : axis) (s : S) :
  load (store h (l, c) s) (l, c) = s.
Proof.
  unfold load, store. cbn [fst snd]. rewrite heap_set_same.
  now destruct c.
Qed.

Lemma store_agrees (h : heap S) (r : access) (s : S) :
  forall l, l <> fst r -> store h r s l = h l.
Proof. intros l Hl. now apply store_other. Qed.

(** Three compound assignments on x, y, z of [this], each with its own
    right-hand side, when the right-hand sides do not depend on [this]. *)
Lemma three_assignments (op : S -> S -> S) (this : loc)
  (rx ry rz : Eval S S) (h : heap S) :
  (forall h1 h2, (forall l, l <> this -> h1 l = h2 l) ->
     value ry h1 = value ry h2 /\ value rz h1 = value rz h2) ->
  let h3 :=
    snd (mbind (compound_assign op (this, AxisX) rx)
           (fun _ => mbind (compound_assign op (this, AxisY) ry)
              (fun _ => mbind (compound_assign op (this, AxisZ) rz)
                 (fun _ => mret this))) h) in
  h3 this = Vector3D_xyz (op (m_x (h this)) (value rx h))
                         (op (m_y (h this)) (value ry h))
                         (op (m_z (h this)) (value rz h))
  /\ forall l, l <> this -> h3 l = h l.
Proof.
  intros Hind h3. unfold h3, mbind, mret.
  rewrite !compound_assign_eq. cbn [fst snd].
  set (h1 := store h (this, AxisX) _).
  set (h2 := store h1 (this, AxisY) _).
  assert (A1 : forall l, l <> this -> h1 l = h l)
    by (intros l Hl; unfold h1; now apply store_other).
  assert (A2 : forall l, l <> this -> h2 l = h l)
    by (intros l Hl; unfold h2; rewrite store_other by exact Hl; auto).
  destruct (Hind h1 h A1) as (Ey & _).
  destruct (Hind h2 h A2) as (_ & Ez).
  split.
  - unfold store at 1. cbn [fst snd]. rewrite heap_set_same.
    rewrite Ez. unfold h2 at 1 2 3. unfold store at 1 2 3, load at 1.
    cbn [fst snd]. rewrite !heap_set_same. cbn [m_x m_y m_z].
    rewrite Ey. unfold h2, h1, load, store. cbn [fst snd].
    rewrite !heap_set_same. reflexivity.
  - intros l Hl. rewrite store_other by exact Hl. auto.
Qed.

End CompoundAssignments.

Section AssignmentsAgree.

Context {S : Type} `{Scalar S}.
Local Open Scope scalar_scope.

(** X8.  When the right-hand side does not depend on the target, [v += e]
    and [v -= e] leave in [v] exactly what forcing [v + e] and [v - e]
    would give, return a reference to [v] and change no other object. *)
Theorem plus_minus_assign_independent {E} `{Vector3D_Expr S E}
  (this : loc) (vector : E) (h : heap S) :
  independent_of this vector ->
  (fst (operator_plus_assign this vector h) = this
   /\ snd (operator_plus_assign this vector h) this
        = value (Vector3D_of_expr (operator_plus (ref this) vector)) h
   /\ forall l, l <> this ->
        snd (operator_plus_assign this vector h) l = h l)
  /\ (fst (operator_minus_assign this vector h) = this
      /\ snd (operator_minus_assign this vector h) this
           = value (Vector3D_of_expr (operator_minus (ref this) vector)) h
      /\ forall l, l <> this ->
           snd (operator_minus_assign this vector h) l = h l).
Proof.
  intros Hind.
  assert (Hyz : forall h1 h2, (forall l, l <> this -> h1 l = h2 l) ->
            value (y vector) h1 = value (y vector) h2
            /\ value (z vector) h1 = value (z vector) h2).
  { intros h1 h2 Hagree. destruct (Hind h1 h2 Hagree) as (_ & Ey & Ez).
    now split. }
  split.
  - destruct (@three_assignments S Sadd this (x vector) (y vector)
                (z vector) h Hyz) as (Hv & Hf).
    split; [reflexivity |]. split; [| exact Hf].
    unfold operator_plus_assign. rewrite Hv.
    unfold operator_plus, Vector3D_of_expr. simpl. autorewrite with eval.
    reflexivity.
  - destruct (@three_assignments S Ssub this (x vector) (y vector)
                (z vector) h Hyz) as (Hv & Hf).
    split; [reflexivity |]. split; [| exact Hf].
    unfold operator_minus_assign. rewrite Hv.
    unfold operator_minus, Vector3D_of_expr. simpl. autorewrite with eval.
    reflexivity.
Qed.

(** What a scalar compound assignment leaves in the store. *)
Lemma scalar_assignments (op : S -> S -> S) (this : loc) (scalar : S)
  (h : heap S) :
  let h3 :=
    snd (mbind (compound_assign op (this, AxisX) (eret scalar))
           (fun _ => mbind (compound_assign op (this, AxisY) (eret scalar))
              (fun _ => mbind (compound_assign op (this, AxisZ) (eret scalar))
                 (fun _ => mret this))) h) in
  h3 this = Vector3D_xyz (op (m_x (h this)) scalar)
                         (op (m_y (h this)) scalar)
                         (op (m_z (h this)) scalar)
  /\ forall l, l <> this -> h3 l = h l.
Proof.
  apply (@three_assignments S op this (eret scalar) (eret scalar)
           (eret scalar) h).
  intros; split; reflexivity.
Qed.

(** X9.  [v *= s] and [v /= s] leave in [v] exactly what forcing [v * s]
    and [v / s] would give, return a reference to [v] and change no other
    object. *)
Theorem scalar_assign_agrees (this : loc) (scalar : S) (h : heap S) :
  (fst (operator_times_assign this scalar h) = this
   /\ snd (operator_times_assign this scalar h) this
        = value (Vector3D_of_expr (operator_times (ref this) scalar)) h
   /\ forall l, l <> this ->
        snd (operator_times_assign this scalar h) l = h l)
  /\ (fst (operator_divide_assign this scalar h) = this
      /\ snd (operator_divide_assign this scalar h) this
           = value (Vector3D_of_expr (operator_divide (ref this) scalar)) h
      /\ forall l, l <> this ->
           snd (operator_divide_assign this scalar h) l = h l).
Proof.
  split.
  - destruct (scalar_assignments Smul this scalar h) as (Hv & Hf).
    split; [reflexivity |]. split; [| exact Hf].
    unfold operator_times_assign. rewrite Hv. reflexivity.
  - destruct (scalar_assignments Sdiv this scalar h) as (Hv & Hf).
    split; [reflexivity |]. split; [| exact Hf].
    unfold operator_divide_assign. rewrite Hv. reflexivity.
Qed.

(** X10.  [setConstant(s)] leaves the vector equal to [Vector3D(s)],
    returns a reference to it, changes no other object, and calling it
    again with the same scalar changes nothing more. *)
Theorem setConstant_spec (this : loc) (scalar : S) (h : heap S) :
  let h' := snd (setConstant this scalar h) in
  fst (setConstant this scalar h) = this
  /\ h' this = Vector3D_value scalar
  /\ (forall l, l <> this -> h' l = h l)
  /\ forall l, snd (setConstant this scalar h') l = h' l.
Proof.
  intros h'.
  assert (Hset : forall k : heap S,
            snd (setConstant this scalar k) this = Vector3D_value scalar
            /\ forall l, l <> this -> snd (setConstant this scalar k) l = k l).
  { intros k. unfold setConstant, mbind, mret, get, put, load, store.
    cbn [fst snd]. rewrite !heap_set_same. cbn [m_x m_y m_z].
    split; [reflexivity |].
    intros l Hl. now rewrite !heap_set_other. }
  split; [reflexivity |].
  destruct (Hset h) as (Hv & Hf). fold h' in Hv, Hf.
  split; [exact Hv |]. split; [exact Hf |].
  intros l. destruct (Hset h') as (Hv' & Hf').
  destruct (Nat.eq_dec l this) as [-> | Hl].
  - now rewrite Hv', Hv.
  - now apply Hf'.
Qed.

(** X11.  A lazy expression is evaluated against the store at the moment
    its accessors are called, a declared vector is a snapshot: after
    [Vector3D<S> d(a + b); a *= s;] the vector [d] still holds [a + b] as
    it was, while the expression [a + b] now evaluates with the scaled
    [a]. *)
Theorem lazy_expression_sees_updates (a b d : loc) (s : S) (h : heap S) :
  a <> b -> d <> a -> d <> b ->
  let e := operator_plus (ref a) (ref b) in
  let h1 := snd (declare d e h) in
  let h2 := snd (operator_times_assign a s h1) in
  h2 d = Vector3D_xyz (m_x (h a) + m_x (h b)) (m_y (h a) + m_y (h b))
                      (m_z (h a) + m_z (h b))
  /\ value (Vector3D_of_expr e) h2
       = Vector3D_xyz (m_x (h a) * s + m_x (h b)) (m_y (h a) * s + m_y (h b))
                      (m_z (h a) * s + m_z (h b)).
Proof.
  intros Hab Hda Hdb e h1 h2.
  destruct (scalar_assignments Smul a s h1) as (Hv & Hf).
  change (snd _) with h2 in Hv, Hf.
  assert (H1a : h1 a = h a)
    by (unfold h1, declare; cbn [snd]; apply heap_set_other; congruence).
  assert (H1b : h1 b = h b)
    by (unfold h1, declare; cbn [snd]; apply heap_set_other; congruence).
  split.
  - rewrite Hf by exact Hda. unfold h1, declare. cbn [snd].
    now rewrite heap_set_same.
  - unfold e, operator_plus, Vector3D_of_expr, value. simpl.
    unfold load. cbn [fst snd]. rewrite Hv, (Hf b) by congruence.
    cbn [m_x m_y m_z]. now rewrite H1a, H1b.
Qed.

End AssignmentsAgree.

Section AssignmentsAlgebra.

Context {S : Type} `{Scalar S}.
Local Open Scope scalar_scope.

(** The assignments of an independent right-hand side, in the form the
    theorems below use. *)
Lemma independent_assignments {E} `{Vector3D_Expr S E}
  (op : S -> S -> S) (this : loc) (vector : E) (h : heap S) :
  independent_of this vector ->
  let h3 :=
    snd (mbind (compound_assign op (this, AxisX) (x vector))
           (fun _ => mbind (compound_assign op (this, AxisY) (y vector))
              (fun _ => mbind (compound_assign op (this, AxisZ) (z vector))
                 (fun _ => mret this))) h) in
  h3 this = Vector3D_xyz (op (m_x (h this)) (value (x vector) h))
                         (op (m_y (h this)) (value (y vector) h))
                         (op (m_z (h this)) (value (z vector) h))
  /\ (forall l, l <> this -> h3 l = h l)
  /\ value (x vector) h3 = value (x vector) h
  /\ value (y vector) h3 = value (y vector) h
  /\ value (z vector) h3 = value (z vector) h.
Proof.
  intros Hind h3.
  destruct (@three_assignments S op this (x vector) (y vector) (z vector) h)
    as (Hv & Hf).
  { intros h1 h2 Hagree. destruct (Hind h1 h2 Hagree) as (_ & Ey & Ez).
    now split. }
  fold h3 in Hv, Hf.
  destruct (Hind h3 h Hf) as (Ex & Ey & Ez).
  repeat split; assumption.
Qed.

(** X12.  In [a += a.cross(b)] the right-hand side is evaluated statement
    by statement against the partly updated target: the new y is computed
    with the new x, and the new z with the new x and the new y. *)
Theorem plus_assign_cross_of_self (a b : loc) (h : heap S) :
  a <> b ->
  let x' := m_x (h a) + (m_y (h a) * m_z (h b) - m_y (h b) * m_z (h a)) in
  let y' := m_y (h a) + (m_z (h a) * m_x (h b) - m_z (h b) * x') in
  let z' := m_z (h a) + (x' * m_y (h b) - m_x (h b) * y') in
  snd (operator_plus_assign a (cross (ref a) (ref b)) h) a
    = Vector3D_xyz x' y' z'.
Proof.
  intros Hab x' y' z'.
  unfold operator_plus_assign, cross, mbind, mret.
  rewrite !compound_assign_eq. cbn [fst snd].
  unfold value. simpl. unfold load, store. cbn [fst snd].
  rewrite !heap_set_same. cbn [m_x m_y m_z].
  rewrite !heap_set_other by congruence.
  reflexivity.
Qed.

Hypothesis Sring : ring_theory Szero Sone Sadd Smul Ssub Sneg (@eq S).

Add Ring Sring_assign : Sring.

(** X13.  [v -= v] leaves [v] equal to the zero vector and changes no
    other object. *)
Theorem minus_assign_self (this : loc) (h : heap S) :
  snd (operator_minus_assign this (ref this) h) this = Vector3D_default
  /\ forall l, l <> this ->
       snd (operator_minus_assign this (ref this) h) l = h l.
Proof.
  unfold operator_minus_assign, mbind, mret.
  rewrite !compound_assign_eq. cbn [fst snd].
  unfold value. simpl. unfold load, store. cbn [fst snd].
  rewrite !heap_set_same. cbn [m_x m_y m_z]. split.
  - unfold Vector3D_default. f_equal; ring.
  - intros l Hl. now rewrite !heap_set_other.
Qed.

(** X14.  For a right-hand side that does not depend on the target,
    [v += e] followed by [v -= e] restores [v], and two additions in a row
    are one addition of the sum: [v += e1; v += e2] leaves what
    [v += e1 + e2] leaves. *)
Theorem plus_assign_undo_and_compose {E1 E2}
  `{Vector3D_Expr S E1} `{Vector3D_Expr S E2}
  (this : loc) (e1 : E1) (e2 : E2) (h : heap S) :
  independent_of this e1 -> independent_of this e2 ->
  snd (operator_minus_assign this e1
         (snd (operator_plus_assign this e1 h))) this = h this
  /\ snd (operator_plus_assign this e2
            (snd (operator_plus_assign this e1 h))) this
       = snd (operator_plus_assign this (operator_plus e1 e2) h) this.
Proof.
  intros I1 I2.
  destruct (independent_assignments Sadd h I1)
    as (V1 & F1 & X1 & Y1 & Z1).
  change (snd _) with (snd (operator_plus_assign this e1 h))
    in V1, F1, X1, Y1, Z1.
  set (h1 := snd (operator_plus_assign this e1 h)) in *.
  split.
  - destruct (independent_assignments Ssub h1 I1) as (V2 & _).
    change (snd _) with (snd (operator_minus_assign this e1 h1)) in V2.
    rewrite V2, V1, X1, Y1, Z1. cbn [m_x m_y m_z].
    destruct (h this) as [mx my mz]. cbn [m_x m_y m_z]. f_equal; ring.
  - destruct (independent_assignments Sadd h1 I2) as (V2 & _).
    change (snd _) with (snd (operator_plus_assign this e2 h1)) in V2.
    destruct (I2 h1 h F1) as (X2 & Y2 & Z2).
    assert (I12 : independent_of this (operator_plus e1 e2))
      by (now apply independent_of_SumExpr).
    destruct (independent_assignments Sadd h I12)
      as (V3 & _).
    change (snd _)
      with (snd (operator_plus_assign this (operator_plus e1 e2) h)) in V3.
    rewrite V2, V3, V1, X2, Y2, Z2. cbn [m_x m_y m_z].
    unfold operator_plus. simpl. autorewrite with eval. f_equal; ring.
Qed.

End AssignmentsAlgebra.

Section FieldScalar.

Context {S : Type} `{Scalar S}.
Local Open Scope scalar_scope.

Variable Sinv : S -> S.

Hypothesis Sfield :
  field_theory Szero Sone Sadd Smul Ssub Sneg Sdiv Sinv (@eq S).

Add Field Sfield_field : Sfield.

(** X15.  Scaling by a non-zero scalar is undone by dividing by it: the
    expression [(e * s) / s] has the components of [e], and
    [v *= s; v /= s] restores [v]. *)
Theorem scale_then_divide {E} `{Vector3D_Expr S E}
  (e : E) (this : loc) (s : S) (h : heap S) :
  s <> Szero ->
  same_components (operator_divide (operator_times e s) s) e h
  /\ snd (operator_divide_assign this s
            (snd (operator_times_assign this s h))) this = h this.
Proof.
  intros Hs. split.
  - node_values. repeat split; field; exact Hs.
  - destruct (scalar_assignments Smul this s h) as (V1 & _).
    destruct (scalar_assignments Sdiv this s
                (snd (operator_times_assign this s h))) as (V2 & _).
    unfold operator_divide_assign. rewrite V2.
    unfold operator_times_assign. rewrite V1. cbn [m_x m_y m_z].
    destruct (h this) as [mx my mz]. cbn [m_x m_y m_z].
    f_equal; field; exact Hs.
Qed.

End FieldScalar.

(** ** Norms over an ordered scalar type *)

Section OrderedAlgebra.

Context {S : Type} `{Scalar S}.
Local Open Scope scalar_scope.

Variables (Sle Slt : S -> S -> Prop).

Hypothesis Sordered :
  OrderedRing.SOR Szero Sone Sadd Smul Ssub Sneg (@eq S) Sle Slt.

Add Ring Sordered_ring : (OrderedRing.SORrt Sordered).

Lemma square_zero (a : S) : a * a = Szero -> a = Szero.
Proof.
  intros Ha.
  destruct (OrderedRing.Req_em Sordered a Szero) as [E | N]; [exact E |].
  exfalso. exact (OrderedRing.Rtimes_neq_0 Sordered a a (conj N N) Ha).
Qed.

Lemma nonneg_sum_zero (p q : S) :
  Sle Szero p -> Sle Szero q -> p + q = Szero -> p = Szero /\ q = Szero.
Proof.
  intros Hp Hq Hsum.
  assert (Hp0 : p = Szero).
  { apply (OrderedRing.Rle_antisymm Sordered); [| exact Hp].
    rewrite <- Hsum.
    replace p with (p + Szero) at 1 by ring.
    now apply (OrderedRing.Rplus_le_mono_l Sordered). }
  split; [exact Hp0 |].
  rewrite Hp0 in Hsum. rewrite <- Hsum. ring.
Qed.

(** X16.  The Cauchy-Schwarz inequality: the square of [a.dot(b)] is at
    most the product of the squared norms. *)
Theorem dot_squared_bound {E1 E2}
  `{Vector3D_Expr S E1} `{Vector3D_Expr S E2}
  (a : E1) (b : E2) (h : heap S) :
  Sle (value (dot a b) h * value (dot a b) h)
      (value (squaredNorm a) h * value (squaredNorm b) h).
Proof.
  apply (OrderedRing.Rle_le_minus Sordered).
  replace (value (squaredNorm a) h * value (squaredNorm b) h
           - value (dot a b) h * value (dot a b) h)
    with (value (squaredNorm (cross a b)) h)
    by (node_values; ring).
  rewrite value_squaredNorm. apply (sum_of_squares_nonneg Sordered).
Qed.

(** X17.  [squaredNorm()] is zero exactly when the three components are
    zero. *)
Theorem squaredNorm_zero_iff {E} `{Vector3D_Expr S E} (e : E) (h : heap S) :
  value (squaredNorm e) h = Szero
  <-> value (x e) h = Szero /\ value (y e) h = Szero
      /\ value (z e) h = Szero.
Proof.
  rewrite value_squaredNorm. split.
  - intros Hsum.
    pose proof (OrderedRing.Rtimes_square_nonneg Sordered (value (x e) h))
      as Hx.
    pose proof (OrderedRing.Rtimes_square_nonneg Sordered (value (y e) h))
      as Hy.
    pose proof (OrderedRing.Rtimes_square_nonneg Sordered (value (z e) h))
      as Hz.
    destruct (@nonneg_sum_zero _ _
                (OrderedRing.Rplus_nonneg_nonneg Sordered _ _ Hx Hy) Hz Hsum)
      as (Hxy & Hz0).
    destruct (@nonneg_sum_zero _ _ Hx Hy Hxy) as (Hx0 & Hy0).
    repeat split; now apply square_zero.
  - intros (-> & -> & ->). ring.
Qed.

End OrderedAlgebra.

(** ** Norms over the reals *)

Section RealNorm.

Import Rdefinitions.
Local Open Scope R_scope.

(** Facts about three real numbers used below. *)
Lemma sum_squares_nonneg_R (a b c : R) : 0 <= a * a + b * b + c * c.
Proof. nra. Qed.

Lemma cauchy_schwarz_R (a1 a2 a3 b1 b2 b3 : R) :
  a1 * b1 + a2 * b2 + a3 * b3
    <= R_sqrt.sqrt (a1 * a1 + a2 * a2 + a3 * a3)
       * R_sqrt.sqrt (b1 * b1 + b2 * b2 + b3 * b3).
Proof.
  pose proof (sum_squares_nonneg_R a1 a2 a3) as HA.
  pose proof (sum_squares_nonneg_R b1 b2 b3) as HB.
  pose proof (R_sqrt.sqrt_pos (a1 * a1 + a2 * a2 + a3 * a3)) as Hna.
  pose proof (R_sqrt.sqrt_pos (b1 * b1 + b2 * b2 + b3 * b3)) as Hnb.
  pose proof (R_sqrt.sqrt_sqrt _ HA) as Ena.
  pose proof (R_sqrt.sqrt_sqrt _ HB) as Enb.
  set (na := R_sqrt.sqrt (a1 * a1 + a2 * a2 + a3 * a3)) in *.
  set (nb := R_sqrt.sqrt (b1 * b1 + b2 * b2 + b3 * b3)) in *.
  set (d := a1 * b1 + a2 * b2 + a3 * b3).
  assert (Hd2 : d * d <= (na * nb) * (na * nb)).
  { replace ((na * nb) * (na * nb)) with ((na * na) * (nb * nb)) by ring.
    rewrite Ena, Enb. unfold d.
    assert (L : (a1 * a1 + a2 * a2 + a3 * a3) * (b1 * b1 + b2 * b2 + b3 * b3)
                - (a1 * b1 + a2 * b2 + a3 * b3) * (a1 * b1 + a2 * b2 + a3 * b3)
                = (a2 * b3 - b2 * a3) * (a2 * b3 - b2 * a3)
                  + (a3 * b1 - b3 * a1) * (a3 * b1 - b3 * a1)
                  + (a1 * b2 - b1 * a2) * (a1 * b2 - b1 * a2)) by ring.
    pose proof (sum_squares_nonneg_R (a2 * b3 - b2 * a3) (a3 * b1 - b3 * a1)
                  (a1 * b2 - b1 * a2)).
    lra. }
  assert (Hn : 0 <= na * nb) by (apply RIneq.Rmult_le_pos; assumption).
  nra.
Qed.

Lemma triangle_R (a1 a2 a3 b1 b2 b3 : R) :
  R_sqrt.sqrt ((a1 + b1) * (a1 + b1) + (a2 + b2) * (a2 + b2)
               + (a3 + b3) * (a3 + b3))
    <= R_sqrt.sqrt (a1 * a1 + a2 * a2 + a3 * a3)
       + R_sqrt.sqrt (b1 * b1 + b2 * b2 + b3 * b3).
Proof.
  pose proof (sum_squares_nonneg_R a1 a2 a3) as HA.
  pose proof (sum_squares_nonneg_R b1 b2 b3) as HB.
  pose proof (R_sqrt.sqrt_pos (a1 * a1 + a2 * a2 + a3 * a3)) as Hna.
  pose proof (R_sqrt.sqrt_pos (b1 * b1 + b2 * b2 + b3 * b3)) as Hnb.
  pose proof (R_sqrt.sqrt_sqrt _ HA) as Ena.
  pose proof (R_sqrt.sqrt_sqrt _ HB) as Enb.
  pose proof (cauchy_schwarz_R a1 a2 a3 b1 b2 b3) as Hcs.
  set (na := R_sqrt.sqrt (a1 * a1 + a2 * a2 + a3 * a3)) in *.
  set (nb := R_sqrt.sqrt (b1 * b1 + b2 * b2 + b3 * b3)) in *.
  rewrite <- (R_sqrt.sqrt_square (na + nb)) by lra.
  apply R_sqrt.sqrt_le_1_alt. nra.
Qed.

Context {E1 E2 : Type}
  `{Vector3D_Expr R E1} `{Vector3D_Expr R E2}.
Variables (a : E1) (b : E2) (h : heap R).

(** Brings a goal about [norm], [dot] and node accessors over the reals to
    real arithmetic on the operands' components. *)
Ltac real_values :=
  rewrite ?value_norm, ?value_squaredNorm, ?value_dot;
  simpl; autorewrite with eval;
  cbn [Szero Sone Sadd Ssub Smul Sdiv Sneg Ssqrt Scalar_R mul_scalar
       div_scalar ScalarOperand_same].

(** X18.  Over the reals [norm()] is never negative, it is zero exactly
    when the three components are zero, and scaling an expression by [s]
    scales its norm by the absolute value of [s]. *)
Theorem norm_real (s : R) :
  0 <= value (norm a) h
  /\ (value (norm a) h = 0
      <-> value (x a) h = 0 /\ value (y a) h = 0 /\ value (z a) h = 0)
  /\ value (norm (operator_times a s)) h
       = Rbasic_fun.Rabs s * value (norm a) h.
Proof.
  unfold operator_times. real_values.
  pose proof (sum_squares_nonneg_R (value (x a) h) (value (y a) h)
                (value (z a) h)) as Hnn.
  split; [apply R_sqrt.sqrt_pos |]. split.
  - split.
    + intros Hz. apply R_sqrt.sqrt_eq_0 in Hz; [| exact Hnn].
      repeat split; nra.
    + intros (-> & -> & ->).
      replace (0 * 0 + 0 * 0 + 0 * 0) with 0 by ring.
      apply R_sqrt.sqrt_0.
  - replace (value (x a) h * s * (value (x a) h * s)
             + value (y a) h * s * (value (y a) h * s)
             + value (z a) h * s * (value (z a) h * s))
      with (RIneq.Rsqr s
            * (value (x a) h * value (x a) h + value (y a) h * value (y a) h
               + value (z a) h * value (z a) h))
      by (unfold RIneq.Rsqr; ring).
    rewrite R_sqrt.sqrt_mult by (try apply RIneq.Rle_0_sqr; exact Hnn).
    now rewrite R_sqrt.sqrt_Rsqr_abs.
Qed.

(** X19.  Over the reals the dot product is bounded by the product of the
    norms, and the norm of a sum is at most the sum of the norms. *)
Theorem norm_triangle :
  value (dot a b) h <= value (norm a) h * value (norm b) h
  /\ value (norm (operator_plus a b)) h
       <= value (norm a) h + value (norm b) h.
Proof.
  unfold operator_plus. real_values.
  split; [apply cauchy_schwarz_R | apply triangle_R].
Qed.

End RealNorm.

(** The components of the vector [normalized()] returns. *)
Lemma normalized_components {S} `{Scalar S} (this : loc) (h : heap S) :
  m_x (value (normalized this) h)
    = Sdiv (m_x (h this)) (value (norm (ref this)) h)
  /\ m_y (value (normalized this) h)
    = Sdiv (m_y (h this)) (value (norm (ref this)) h)
  /\ m_z (value (normalized this) h)
    = Sdiv (m_z (h this)) (value (norm (ref this)) h).
Proof. repeat split. Qed.

Section RealNormalized.

Import Rdefinitions.
Local Open Scope R_scope.

(** X20.  Over the reals, for a stored vector of non-zero norm, the
    vector returned by [normalized()] has norm one wherever it is
    stored. *)
Theorem normalized_unit_norm (this d : loc) (h : heap R) :
  value (norm (ref this)) h <> 0 ->
  value (norm (ref d)) (heap_set h d (value (normalized this) h)) = 1.
Proof.
  intros Hn.
  destruct (normalized_components this h) as (Ex & Ey & Ez).
  set (v := value (normalized this) h) in *.
  rewrite value_norm, value_squaredNorm.
  destruct (value_ref d (heap_set h d v)) as (-> & -> & ->).
  rewrite heap_set_same, Ex, Ey, Ez.
  cbn [Szero Sone Sadd Ssub Smul Sdiv Sneg Ssqrt Scalar_R].
  set (n := value (norm (ref this)) h) in *.
  assert (Hsq : n * n = m_x (h this) * m_x (h this)
                        + m_y (h this) * m_y (h this)
                        + m_z (h this) * m_z (h this)).
  { unfold n. rewrite value_norm, value_squaredNorm.
    cbn [Szero Sone Sadd Ssub Smul Sdiv Sneg Ssqrt Scalar_R].
    apply R_sqrt.sqrt_sqrt. apply sum_squares_nonneg_R. }
  replace (m_x (h this) / n * (m_x (h this) / n)
           + m_y (h this) / n * (m_y (h this) / n)
           + m_z (h this) / n * (m_z (h this) / n))
    with ((m_x (h this) * m_x (h this) + m_y (h this) * m_y (h this)
           + m_z (h this) * m_z (h this)) / (n * n))
    by (field; exact Hn).
  rewrite <- Hsq.
  replace (n * n / (n * n)) with 1 by (field; exact Hn).
  apply R_sqrt.sqrt_1.
Qed.

End RealNormalized.

(** ** How often forcing evaluates the operands *)

Section ForcingReads.

Context {S : Type} `{Scalar S}.
Context {E1 E2 : Type} `{Vector3D_Expr S E1} `{Vector3D_Expr S E2}.
Variables (a : E1) (b : E2) (h : heap S).

(** X21.  Nothing is cached.  Forcing a sum or a difference performs the
    reads of forcing each operand once; forcing a product or quotient by a
    scalar performs exactly the reads of forcing the operand; forcing a
    cross product performs the reads of forcing each operand twice. *)
Theorem forcing_reads (s : S) :
  Permutation (reads (Vector3D_of_expr (operator_plus a b)) h)
    (reads (Vector3D_of_expr a) h ++ reads (Vector3D_of_expr b) h)
  /\ Permutation (reads (Vector3D_of_expr (operator_minus a b)) h)
       (reads (Vector3D_of_expr a) h ++ reads (Vector3D_of_expr b) h)
  /\ reads (Vector3D_of_expr (operator_times a s)) h
       = reads (Vector3D_of_expr a) h
  /\ reads (Vector3D_of_expr (operator_divide a s)) h
       = reads (Vector3D_of_expr a) h
  /\ Permutation (reads (Vector3D_of_expr (cross a b)) h)
       ((reads (Vector3D_of_expr a) h ++ reads (Vector3D_of_expr b) h)
        ++ (reads (Vector3D_of_expr a) h ++ reads (Vector3D_of_expr b) h)).
Proof.
  unfold operator_plus, operator_minus, operator_times, operator_divide,
    cross, Vector3D_of_expr.
  simpl. autorewrite with eval. rewrite ?app_nil_r.
  repeat split; try reflexivity.
  all: apply (Permutation_count_occ access_eq_dec); intros r;
    repeat rewrite !count_occ_app; simpl; lia.
Qed.

End ForcingReads.

(** ** Streams of several vectors *)

Section TextStreams.

Context {S : Type} `{ScalarIO S}.
Local Open Scope string_scope.

Section Tokens.

Hypothesis extract_show :
  forall (s old : S) (rest : string), token_end rest ->
    extract (Istream (show s ++ rest) false) old = (Istream rest false, s).

Hypothesis extract_skip_space :
  forall (b : string) (old : S),
    extract (Istream (String " " b) false) old
      = extract (Istream b false) old.

(** Reading the text of three scalars followed by more text. *)
Lemma read_three_tokens (s1 s2 s3 : S) (rest : string) (dst : loc)
  (h : heap S) :
  token_end rest ->
  let r := operator_shift_right
             (Istream (show s1 ++ " " ++ show s2 ++ " " ++ show s3 ++ rest)
                      false) dst h in
  fst r = Istream rest false
  /\ snd r dst = Vector3D_xyz s1 s2 s3
  /\ forall l, l <> dst -> snd r l = h l.
Proof.
  intros Hrest r.
  destruct (operator_shift_right_steps
              (Istream (show s1 ++ " " ++ show s2 ++ " " ++ show s3 ++ rest)
                       false) dst h) as (Hs & Hv & Hf).
  fold r in Hs, Hv, Hf. rewrite Hs, Hv. clear Hs Hv.
  rewrite extract_show by (right; eexists; reflexivity). cbn [fst snd].
  change (" " ++ show s2 ++ " " ++ show s3 ++ rest)
    with (String " " (show s2 ++ " " ++ show s3 ++ rest)).
  rewrite extract_skip_space.
  rewrite extract_show by (right; eexists; reflexivity). cbn [fst snd].
  change (" " ++ show s3 ++ rest) with (String " " (show s3 ++ rest)).
  rewrite extract_skip_space, extract_show by exact Hrest.
  cbn [fst snd]. repeat split. exact Hf.
Qed.

(** X22.  Streams compose.  After [out << e1 << ' ' << e2] for two vector
    expressions, [in >> d1 >> d2] on the text written reads it entirely
    and without failure, leaves in [d1] and [d2] the vectors that forcing
    [e1] and [e2] gives, and changes no other object, provided the scalar
    type's own text round-trips. *)
Theorem write_read_two {E1 E2} `{Vector3D_Expr S E1} `{Vector3D_Expr S E2}
  (e1 : E1) (e2 : E2) (d1 d2 : loc) (h : heap S) :
  d1 <> d2 ->
  let text :=
    value (operator_shift_left
             (insert_char (value (operator_shift_left "" e1) h) " ") e2) h in
  let r1 := operator_shift_right (Istream text false) d1 h in
  let r2 := operator_shift_right (fst r1) d2 (snd r1) in
  fst r2 = Istream "" false
  /\ snd r2 d1 = value (Vector3D_of_expr e1) h
  /\ snd r2 d2 = value (Vector3D_of_expr e2) h
  /\ forall l, l <> d1 -> l <> d2 -> snd r2 l = h l.
Proof.
  intros Hd text r1 r2.
  set (t2 := show (value (x e2) h) ++ " " ++ show (value (y e2) h) ++ " "
             ++ show (value (z e2) h)).
  assert (Htext :
    text = show (value (x e1) h) ++ " " ++ show (value (y e1) h) ++ " "
           ++ show (value (z e1) h) ++ String " " t2).
  { unfold text, t2, insert_char. rewrite !operator_shift_left_text.
    rewrite !string_app_assoc. reflexivity. }
  destruct (@read_three_tokens (value (x e1) h) (value (y e1) h)
              (value (z e1) h) (String " " t2) d1 h
              (or_intror (ex_intro _ t2 eq_refl))) as (S1 & V1 & F1).
  rewrite <- Htext in S1, V1, F1. fold r1 in S1, V1, F1.
  destruct (@read_three_tokens (value (x e2) h) (value (y e2) h)
              (value (z e2) h) "" d2 (snd r1) (or_introl eq_refl))
    as (S2 & V2 & F2).
  rewrite string_app_nil_r in S2, V2, F2. fold t2 in S2, V2, F2.
  assert (Hr2 : r2 = operator_shift_right (Istream t2 false) d2 (snd r1)).
  { unfold r2. rewrite S1.
    unfold operator_shift_right, mbind, extract_into, x_ref.
    now rewrite extract_skip_space. }
  rewrite <- Hr2 in S2, V2, F2.
  destruct (Vector3D_of_expr_spec e1 h) as (C1 & _).
  destruct (Vector3D_of_expr_spec e2 h) as (C2 & _).
  split; [exact S2 |].
  split; [rewrite F2 by exact Hd; now rewrite V1, C1 |].
  split; [now rewrite V2, C2 |].
  intros l Hl1 Hl2. rewrite F2 by exact Hl2. now apply F1.
Qed.

End Tokens.

Section FailedStream.

Hypothesis extract_failed :
  forall (stream : istream) (old : S),
    failbit stream = true -> extract stream old = (stream, old).

(** X23.  [operator>>] on a stream that has already failed reads nothing
    and writes nothing: the stream is returned as it is and the store is
    left with the same vectors. *)
Theorem shift_right_on_failed_stream (stream : istream) (vector : loc)
  (h : heap S) :
  failbit stream = true ->
  fst (operator_shift_right stream vector h) = stream
  /\ forall l, snd (operator_shift_right stream vector h) l = h l.
Proof.
  intros F.
  destruct (operator_shift_right_steps stream vector h) as (Hs & Hv & Hf).
  rewrite (extract_failed stream (m_x (h vector)) F) in Hs.
  cbn [fst snd] in Hs.
  rewrite (extract_failed stream (m_y (h vector)) F) in Hs.
  cbn [fst snd] in Hs.
  rewrite (extract_failed stream (m_z (h vector)) F) in Hs.
  cbn [fst snd] in Hs.
  repeat (rewrite extract_failed in Hv by exact F; cbn [fst snd] in Hv).
  split; [exact Hs |].
  intros l. destruct (Nat.eq_dec l vector) as [-> | Hl].
  - rewrite Hv. now destruct (h vector).
  - now apply Hf.
Qed.

End FailedStream.

End TextStreams.

(** ** Instances of the further properties *)

Section FurtherInstances.

Local Open Scope string_scope.

Local Abbreviation Zring :=
  (ring_theory 0%Z 1%Z Z.add Z.mul Z.sub Z.opp (@eq Z)).

Lemma sum_commutative_associative_witness :
  Zring
  /\ same_components (operator_plus (ref 0) (ref 1))
       (operator_plus (ref 1) (ref 0)) heap_123_456
  /\ same_components (operator_plus (operator_plus (ref 0) (ref 1)) (ref 1))
       (operator_plus (ref 0) (operator_plus (ref 1) (ref 1))) heap_123_456.
Proof.
  split; [exact InitialRing.Zth |].
  exact (@sum_commutative_associative Z Scalar_Z InitialRing.Zth
           _ _ _ _ _ _ (ref 0) (ref 1) (ref 1) heap_123_456).
Defined.

Lemma difference_properties_witness :
  Zring
  /\ value (Vector3D_of_expr (operator_minus (ref 0) (ref 0))) heap_123_456
       = Vector3D_xyz 0%Z 0%Z 0%Z
  /\ same_components (operator_plus (operator_minus (ref 0) (ref 1)) (ref 1))
       (ref 0) heap_123_456
  /\ same_components
       (operator_minus (ref 0) (operator_plus (ref 1) (ref 1)))
       (operator_minus (operator_minus (ref 0) (ref 1)) (ref 1))
       heap_123_456.
Proof.
  split; [exact InitialRing.Zth |].
  exact (@difference_properties Z Scalar_Z InitialRing.Zth
           _ _ _ _ _ _ (ref 0) (ref 1) (ref 1) heap_123_456).
Defined.

Lemma scaling_distributes_witness :
  Zring
  /\ same_components (operator_times (operator_plus (ref 0) (ref 1)) 2%Z)
       (operator_plus (operator_times (ref 0) 2%Z)
                      (operator_times (ref 1) 2%Z)) heap_123_456
  /\ same_components (operator_times (operator_minus (ref 0) (ref 1)) 2%Z)
       (operator_minus (operator_times (ref 0) 2%Z)
                       (operator_times (ref 1) 2%Z)) heap_123_456
  /\ same_components (operator_times_left 2%Z (ref 0))
       (operator_times (ref 0) 2%Z) heap_123_456.
Proof.
  split; [exact InitialRing.Zth |].
  exact (@scaling_distributes Z Scalar_Z InitialRing.Zth
           _ _ _ _ (ref 0) (ref 1) heap_123_456 2%Z).
Defined.

Lemma dot_symmetric_bilinear_witness :
  Zring
  /\ value (dot (ref 0) (ref 1)) heap_123_456
       = value (dot (ref 1) (ref 0)) heap_123_456
  /\ value (dot (operator_plus (ref 0) (ref 1)) (ref 1)) heap_123_456
       = Z.add (value (dot (ref 0) (ref 1)) heap_123_456)
               (value (dot (ref 1) (ref 1)) heap_123_456)
  /\ value (dot (operator_times (ref 0) 2%Z) (ref 1)) heap_123_456
       = Z.mul 2 (value (dot (ref 0) (ref 1)) heap_123_456).
Proof.
  split; [exact InitialRing.Zth |].
  exact (@dot_symmetric_bilinear Z Scalar_Z InitialRing.Zth
           _ _ _ _ _ _ (ref 0) (ref 1) (ref 1) heap_123_456 2%Z).
Defined.

Lemma cross_self_and_orthogonal_witness :
  Zring
  /\ value (Vector3D_of_expr (cross (ref 0) (ref 0))) heap_123_456
       = Vector3D_xyz 0%Z 0%Z 0%Z
  /\ value (dot (ref 0) (cross (ref 0) (ref 1))) heap_123_456 = 0%Z
  /\ value (dot (ref 1) (cross (ref 0) (ref 1))) heap_123_456 = 0%Z.
Proof.
  split; [exact InitialRing.Zth |].
  exact (@cross_self_and_orthogonal Z Scalar_Z InitialRing.Zth
           _ _ _ _ (ref 0) (ref 1) heap_123_456).
Defined.

Lemma cross_squaredNorm_witness :
  Zring
  /\ value (squaredNorm (cross (ref 0) (ref 1))) heap_123_456
       = Z.sub (Z.mul (value (squaredNorm (ref 0)) heap_123_456)
                      (value (squaredNorm (ref 1)) heap_123_456))
               (Z.mul (value (dot (ref 0) (ref 1)) heap_123_456)
                      (value (dot (ref 0) (ref 1)) heap_123_456)).
Proof.
  split; [exact InitialRing.Zth |].
  exact (@cross_squaredNorm Z Scalar_Z InitialRing.Zth
           _ _ _ _ (ref 0) (ref 1) heap_123_456).
Defined.

Lemma triple_products_witness :
  Zring
  /\ same_components (cross (ref 0) (cross (ref 1) (ref 0)))
       (operator_minus
          (operator_times (ref 1) (value (dot (ref 0) (ref 0)) heap_123_456))
          (operator_times (ref 0) (value (dot (ref 0) (ref 1)) heap_123_456)))
       heap_123_456
  /\ value (dot (ref 0) (cross (ref 1) (ref 0))) heap_123_456
       = value (dot (ref 1) (cross (ref 0) (ref 0))) heap_123_456.
Proof.
  split; [exact InitialRing.Zth |].
  exact (@triple_products Z Scalar_Z InitialRing.Zth
           _ _ _ _ _ _ (ref 0) (ref 1) (ref 0) heap_123_456).
Defined.

Lemma plus_minus_assign_independent_witness :
  independent_of (S := Z) 0 (ref 1)
  /\ snd (operator_plus_assign 0 (ref 1) heap_123_456) 0
       = Vector3D_xyz 5%Z 7%Z 9%Z
  /\ snd (operator_minus_assign 0 (ref 1) heap_123_456) 0
       = Vector3D_xyz (-3)%Z (-3)%Z (-3)%Z.
Proof.
  assert (I : independent_of (S := Z) 0 (ref 1))
    by (apply independent_of_ref; discriminate).
  split; [exact I |].
  destruct (@plus_minus_assign_independent Z Scalar_Z _ _ 0 (ref 1)
              heap_123_456 I) as ((_ & Hp & _) & (_ & Hm & _)).
  split; [exact Hp | exact Hm].
Defined.

Lemma lazy_expression_sees_updates_witness :
  0 <> 1 /\ 2 <> 0 /\ 2 <> 1
  /\ snd (operator_times_assign 0 2%Z
            (snd (declare 2 (operator_plus (ref 0) (ref 1)) heap_123_456))) 2
       = Vector3D_xyz 5%Z 7%Z 9%Z
  /\ value (Vector3D_of_expr (operator_plus (ref 0) (ref 1)))
       (snd (operator_times_assign 0 2%Z
               (snd (declare 2 (operator_plus (ref 0) (ref 1))
                       heap_123_456))))
       = Vector3D_xyz 6%Z 9%Z 12%Z.
Proof.
  split; [discriminate |]. split; [discriminate |].
  split; [discriminate |].
  refine (@lazy_expression_sees_updates Z Scalar_Z 0 1 2 2%Z heap_123_456
            _ _ _); discriminate.
Defined.

Lemma plus_assign_cross_of_self_witness :
  0 <> 1
  /\ snd (operator_plus_assign 0 (cross (ref 0) (ref 1)) heap_123_456) 0
       = Vector3D_xyz (-2)%Z 26%Z (-111)%Z
  /\ value (Vector3D_of_expr
              (operator_plus (ref 0) (cross (ref 0) (ref 1)))) heap_123_456
       = Vector3D_xyz (-2)%Z 8%Z 0%Z.
Proof.
  split; [discriminate |].
  split; [| reflexivity].
  refine (@plus_assign_cross_of_self Z Scalar_Z 0 1 heap_123_456 _).
  discriminate.
Defined.

Lemma minus_assign_self_witness :
  Zring
  /\ snd (operator_minus_assign 0 (ref 0) heap_123_456) 0
       = Vector3D_xyz 0%Z 0%Z 0%Z.
Proof.
  split; [exact InitialRing.Zth |].
  exact (proj1 (@minus_assign_self Z Scalar_Z InitialRing.Zth 0
                  heap_123_456)).
Defined.

Lemma plus_assign_undo_and_compose_witness :
  Zring
  /\ independent_of (S := Z) 0 (ref 1)
  /\ snd (operator_minus_assign 0 (ref 1)
            (snd (operator_plus_assign 0 (ref 1) heap_123_456))) 0
       = Vector3D_xyz 1%Z 2%Z 3%Z
  /\ snd (operator_plus_assign 0 (ref 1)
            (snd (operator_plus_assign 0 (ref 1) heap_123_456))) 0
       = snd (operator_plus_assign 0 (operator_plus (ref 1) (ref 1))
                heap_123_456) 0.
Proof.
  assert (I : independent_of (S := Z) 0 (ref 1))
    by (apply independent_of_ref; discriminate).
  split; [exact InitialRing.Zth |]. split; [exact I |].
  exact (@plus_assign_undo_and_compose Z Scalar_Z InitialRing.Zth
           _ _ _ _ 0 (ref 1) (ref 1) heap_123_456 I I).
Defined.

Lemma shift_right_on_failed_stream_witness :
  (forall (stream : istream) (old : Z),
     failbit stream = true -> extract stream old = (stream, old))
  /\ fst (operator_shift_right (Istream "7 8 9" true) 0 heap_123_456)
       = Istream "7 8 9" true
  /\ snd (operator_shift_right (Istream "7 8 9" true) 0 heap_123_456) 0
       = Vector3D_xyz 1%Z 2%Z 3%Z.
Proof.
  split; [exact extract_Z_failed |].
  destruct (@shift_right_on_failed_stream Z ScalarIO_Z extract_Z_failed
              (Istream "7 8 9" true) 0 heap_123_456 eq_refl) as (Hs & Hh).
  split; [exact Hs | exact (Hh 0)].
Defined.

Lemma write_read_two_witness :
  (forall (s old : Z) (rest : string), token_end rest ->
     extract (Istream (show s ++ rest) false) old = (Istream rest false, s))
  /\ (forall (b : string) (old : Z),
        extract (Istream (String " " b) false) old
          = extract (Istream b false) old)
  /\ 2 <> 3
  /\ snd (operator_shift_right
            (fst (operator_shift_right (Istream "1 2 3 5 7 9" false) 2
                    heap_123_456)) 3
            (snd (operator_shift_right (Istream "1 2 3 5 7 9" false) 2
                    heap_123_456))) 3
       = Vector3D_xyz 5%Z 7%Z 9%Z.
Proof.
  split; [exact extract_Z_show |]. split; [exact extract_Z_skip_space |].
  split; [discriminate |].
  assert (Hd : 2 <> 3) by discriminate.
  destruct (@write_read_two Z ScalarIO_Z extract_Z_show extract_Z_skip_space
              _ _ _ _ (ref 0) (operator_plus (ref 0) (ref 1)) 2 3
              heap_123_456 Hd) as (_ & _ & H3 & _).
  exact H3.
Defined.

End FurtherInstances.

Section RealInstances.

Import Rdefinitions.

Local Abbreviation Rordered :=
  (OrderedRing.SOR R0 R1 Rplus Rmult Rminus Ropp (@eq R) Rle Rlt).

(** The squared norm of [(3,4,0)] is 25, so its norm is not zero. *)
Lemma norm_340_nonzero : value (norm (ref 0)) heap_340 <> 0%R.
Proof.
  intros Hn.
  pose proof (norm_squared_real (ref 0) heap_340) as Hsq.
  rewrite Hn, value_squaredNorm in Hsq.
  unfold value in Hsq. simpl in Hsq. unfold load, heap_340 in Hsq.
  simpl in Hsq. lra.
Qed.

Lemma scale_then_divide_witness :
  field_theory R0 R1 Rplus Rmult Rminus Ropp Rdiv Rinv (@eq R)
  /\ 2%R <> 0%R
  /\ same_components
       (operator_divide (operator_times (ref 0) 2%R) 2%R) (ref 0) heap_340
  /\ snd (operator_divide_assign 0 2%R
            (snd (operator_times_assign 0 2%R heap_340))) 0 = heap_340 0.
Proof.
  assert (H2 : 2%R <> 0%R) by lra.
  split; [exact RealField.Rfield |]. split; [exact H2 |].
  exact (@scale_then_divide R Scalar_R Rinv RealField.Rfield _ _
           (ref 0) 0 2%R heap_340 H2).
Defined.

Lemma dot_squared_bound_witness :
  Rordered
  /\ Rle (Rmult (value (dot (ref 0) (ref 1)) heap_340)
                (value (dot (ref 0) (ref 1)) heap_340))
         (Rmult (value (squaredNorm (ref 0)) heap_340)
                (value (squaredNorm (ref 1)) heap_340)).
Proof.
  split; [exact RMicromega.Rsor |].
  exact (@dot_squared_bound R Scalar_R Rle Rlt RMicromega.Rsor
           _ _ _ _ (ref 0) (ref 1) heap_340).
Defined.

Lemma squaredNorm_zero_iff_witness :
  Rordered
  /\ (value (squaredNorm (ref 0)) heap_340 = 0%R
      <-> value (x (ref 0)) heap_340 = 0%R
          /\ value (y (ref 0)) heap_340 = 0%R
          /\ value (z (ref 0)) heap_340 = 0%R).
Proof.
  split; [exact RMicromega.Rsor |].
  exact (@squaredNorm_zero_iff R Scalar_R Rle Rlt RMicromega.Rsor
           _ _ (ref 0) heap_340).
Defined.

Lemma normalized_unit_norm_witness :
  value (norm (ref 0)) heap_340 <> 0%R
  /\ value (norm (ref 1))
       (heap_set heap_340 1 (value (normalized 0) heap_340)) = 1%R.
Proof.
  split; [exact norm_340_nonzero |].
  exact (@normalized_unit_norm 0 1 heap_340 norm_340_nonzero).
Defined.

End RealInstances.
